(** * ward: test model, parameterisation and fixture resolution

    A shallow embedding of [ward/testing.py]: the [Each] placeholder, the
    [Test] dataclass with its parameterisation expansion and argument
    resolution, and the [test] decorator with its registry of anonymous
    tests.  Python objects that the code only reads are records; the
    fixture cache, the effects of calling a fixture function and the
    source of fresh identifiers are threaded as explicit state. *)

From Stdlib Require Import ZArith.
From stdpp Require Import base option list strings gmap pretty.

Open Scope string_scope.
Open Scope list_scope.
Open Scope nat_scope.

(** ** Python values *)

(** [ward.fixtures.Scope]. *)
Inductive Scope : Type := Scope_Test | Scope_Module | Scope_Global.

(** [ward.models.Marker] and its two subclasses. *)
Inductive Marker : Type :=
| SkipMarker (reason : option string)
| XfailMarker (reason : option string).

(** Modelled from the spec: [ward.models.WardMeta] is not part of the
    sources at hand.  It is the side-table record hung on a function as
    its [ward_meta] attribute; the fields are those [testing.py] reads and
    writes. *)
Record WardMeta : Type := mkWardMeta {
  meta_marker : option Marker;
  meta_description : option string;
  is_fixture : bool
}.

(** The values a default argument can be bound to.  A function object
    carries what the code inspects: its [__name__], its signature (the
    parameters in order, each with its default if it has one), its
    [ward_meta] attribute if present, and whether it is a generator
    function.

    Modelled from the spec: [fn_key] and [fn_scope] are what the absent
    [Fixture.key] and [Fixture.scope] read off the wrapped callable: the
    identity of the callable, stable across calls, and one of the three
    scopes. *)
#[warnings="-register-all"]
Inductive PyVal : Type :=
| VNone
| VInt (z : Z)
| VStr (s : string)
| VTuple (items : list PyVal)
| VEach (args : list PyVal)
| VFunc (f : Func)
with Func : Type :=
| mkFunc (name : string) (key : string) (scp : Scope)
         (meta : option WardMeta) (is_generator : bool)
         (params : list (string * option PyVal)).

Definition fn_name (f : Func) : string :=
  match f with mkFunc name _ _ _ _ _ => name end.
Definition fn_key (f : Func) : string :=
  match f with mkFunc _ key _ _ _ _ => key end.
Definition fn_scope (f : Func) : Scope :=
  match f with mkFunc _ _ scp _ _ _ => scp end.
Definition fn_meta (f : Func) : option WardMeta :=
  match f with mkFunc _ _ _ meta _ _ => meta end.
Definition fn_is_generator (f : Func) : bool :=
  match f with mkFunc _ _ _ _ g _ => g end.
Definition fn_params (f : Func) : list (string * option PyVal) :=
  match f with mkFunc _ _ _ _ _ params => params end.

(** The exceptions a fixture function may raise.  [Exc cls msg] is an
    instance of a class deriving from [Exception]; [BaseExc cls msg] is an
    instance of a class deriving from [BaseException] only, such as
    [KeyboardInterrupt], [SystemExit] or [GeneratorExit], which an
    [except Exception] clause does not catch. *)
Inductive PyExc : Type :=
| Exc (cls : string) (msg : string)
| BaseExc (cls : string) (msg : string).

(** [isinstance(e, Exception)]. *)
Definition is_Exception (e : PyExc) : bool :=
  match e with
  | Exc _ _ => true
  | BaseExc _ _ => false
  end.

(** The exceptions that leave the modelled code: those it raises itself,
    and [Uncaught e] for an exception of a fixture function that passes
    through it as it is. *)
Inductive PyError : Type :=
| FixtureError (msg : string) (cause : PyExc)
| ParameterisationError (msg : string)
| IndexError
| TypeError
| Uncaught (e : PyExc).

Inductive Result (A : Type) : Type :=
| Ok (a : A)
| Raise (e : PyError).
Arguments Ok {A} a.
Arguments Raise {A} e.

(** ** Each *)

Definition isinstance_Each (arg : PyVal) : bool :=
  match arg with VEach _ => true | _ => false end.

(** Indexing a tuple with a Python integer: negative indices count from
    the end, anything outside [-len, len) raises [IndexError]. *)
Definition tuple_getitem (t : list PyVal) (i : Z) : Result PyVal :=
  let n := Z.of_nat (length t) in
  let j := if (i <? 0)%Z then (i + n)%Z else i in
  if ((0 <=? j)%Z && (j <? n)%Z)%bool
  then match t !! Z.to_nat j with
       | Some v => Ok v
       | None => Raise IndexError
       end
  else Raise IndexError.

(** [Each.__getitem__] and [Each.__len__]; both are only applied to
    [Each] instances. *)
Definition Each_getitem (self : PyVal) (i : Z) : Result PyVal :=
  match self with
  | VEach args => tuple_getitem args i
  | _ => Raise TypeError
  end.

Definition Each_len (self : PyVal) : nat :=
  match self with
  | VEach args => length args
  | _ => 0
  end.

Definition each (args : list PyVal) : PyVal := VEach args.

(** ** Test *)

Record Test : Type := mkTest {
  fn : Func;
  module_name : string;
  id : string;
  marker : option Marker;
  description : option string
}.

Definition name (self : Test) : string := fn_name (fn self).

Definition qualified_name (self : Test) : string :=
  module_name self +:+ "." +:+ name self.

(** [inspect.signature(self.fn).parameters]. *)
Definition deps (self : Test) : list (string * option PyVal) :=
  fn_params (fn self).

Definition has_deps (self : Test) : bool :=
  bool_decide (0 < length (deps self)).

(** [bind_partial()] with no arguments followed by [apply_defaults()]:
    the parameters that have a default, in signature order. *)
Definition default_arguments (params : list (string * option PyVal))
  : list (string * PyVal) :=
  omap (λ p, match p.2 with Some v => Some (p.1, v) | None => None end) params.

Definition _get_default_args (self : Test) : list (string * PyVal) :=
  default_arguments (fn_params (fn self)).

Definition is_parameterised (self : Test) : bool :=
  existsb isinstance_Each (_get_default_args self).*2.

(** How an f-string renders an [Optional[str]]. *)
Definition format_optional (o : option string) : string :=
  match o with Some s => s | None => "None" end.

Definition each_lengths (self : Test) : list nat :=
  Each_len <$> filter (λ arg, isinstance_Each arg = true)
                      (_get_default_args self).*2.

Definition parameterisation_message (self : Test) : string :=
  "The test " +:+ name self +:+ "/" +:+ format_optional (description self)
  +:+ " is parameterised incorrectly. "
  +:+ "Please ensure all instances of 'each' in the test signature "
  +:+ "are of equal length.".

Definition _find_number_of_instances (self : Test) : Result nat :=
  let lengths := each_lengths self in
  let distinct := size (list_to_set lengths : gset nat) in
  let is_valid := bool_decide (distinct = 0 ∨ distinct = 1) in
  if negb is_valid
  then Raise (ParameterisationError (parameterisation_message self))
  else match lengths !! 0 with
       | Some n => Ok n
       | None => Raise IndexError
       end.

(** Identifiers come from [uuid.uuid4]; the run is given the sequence of
    its draws, and the state is the number of draws made so far. *)
Section Identifiers.
Variable uuid4 : nat → string.

Definition generate_id (drawn : nat) : string * nat :=
  (uuid4 drawn, S drawn).

(** The loop of [get_parameterised_instances]: one [Test(...)] per
    instance number, each drawing its own identifier. *)
Fixpoint generate_tests (self : Test) (count : nat) (drawn : nat)
  : list Test * nat :=
  match count with
  | O => ([], drawn)
  | S count' =>
      let '(new_id, drawn1) := generate_id drawn in
      let generated :=
        {| fn := fn self; module_name := module_name self; id := new_id;
           marker := marker self; description := description self |} in
      let '(rest, drawn2) := generate_tests self count' drawn1 in
      (generated :: rest, drawn2)
  end.

Definition get_parameterised_instances (self : Test) (drawn : nat)
  : Result (list Test) * nat :=
  if negb (is_parameterised self) then (Ok [self], drawn)
  else match _find_number_of_instances self with
       | Raise e => (Raise e, drawn)
       | Ok number_of_instances =>
           let '(generated_tests, drawn') :=
             generate_tests self number_of_instances drawn in
           (Ok generated_tests, drawn')
       end.
End Identifiers.

(** ** Fixtures and the fixture cache *)

(** The generator object a generator fixture leaves behind, suspended at
    its first [yield]: the function it was made from and the keyword
    arguments of the call. *)
Inductive Generator : Type :=
| mkGenerator (of_fn : Func) (kwargs : list (string * PyVal)).

(** Modelled from the spec: [ward.fixtures.Fixture] is not part of the
    sources at hand.  It wraps a fixture-producing callable and owns its
    resolution state: the resolved value, the handle of a two-phase
    factory, and the bookkeeping of the last resolution. *)
Record Fixture : Type := mkFixture {
  fx_fn : Func;
  gen : option Generator;
  resolved_val : PyVal;
  last_resolved_module_name : option string;
  last_resolved_test_id : option string
}.

(** Modelled from the spec: the constructor and the read-only properties
    of the absent [Fixture] class. *)
Definition Fixture_new (fixture_fn : Func) : Fixture :=
  {| fx_fn := fixture_fn; gen := None; resolved_val := VNone;
     last_resolved_module_name := None; last_resolved_test_id := None |}.
Definition Fixture_key (f : Fixture) : string := fn_key (fx_fn f).
Definition Fixture_scope (f : Fixture) : Scope := fn_scope (fx_fn f).
Definition Fixture_name (f : Fixture) : string := fn_name (fx_fn f).
Definition Fixture_deps (f : Fixture) : list (string * option PyVal) :=
  fn_params (fx_fn f).
Definition is_generator_fixture (f : Fixture) : bool :=
  fn_is_generator (fx_fn f).

Definition set_last_resolved (f : Fixture) (test_id module : string)
  : Fixture :=
  {| fx_fn := fx_fn f; gen := gen f; resolved_val := resolved_val f;
     last_resolved_module_name := Some module;
     last_resolved_test_id := Some test_id |}.

Definition set_resolved (f : Fixture) (g : option Generator) (v : PyVal)
  : Fixture :=
  {| fx_fn := fx_fn f; gen := g; resolved_val := v;
     last_resolved_module_name := last_resolved_module_name f;
     last_resolved_test_id := last_resolved_test_id f |}.

(** Modelled from the spec: [ward.fixtures.FixtureCache] is not part of
    the sources at hand.  It is a mapping from fixture key to [Fixture];
    [cache_fixture] stores a fixture under its own key, overwriting any
    previous entry. *)
Abbreviation FixtureCache := (gmap string Fixture).

Definition cache_fixture (cache : FixtureCache) (fixture : Fixture)
  : FixtureCache :=
  <[Fixture_key fixture := fixture]> cache.

(** What a call of a fixture function comes to: the value it returns
    (for a generator function, the value of its first [yield]) or the
    exception it raises. *)
Inductive Outcome : Type :=
| Returned (v : PyVal)
| Raised (e : PyExc).

(** One invocation of a fixture function, as the run performs it: the
    [Fixture] object on whose behalf the call is made, in the state it has
    at the call, the keyword arguments, and the outcome. *)
Inductive Event : Type :=
| EvCall (fixture : Fixture) (kwargs : list (string * PyVal)) (out : Outcome).

(** What the resolution produces for one argument: the [Fixture] that
    [_resolve_single_fixture] returned, or the argument itself. *)
Inductive Resolved : Type :=
| RFixture (f : Fixture)
| RValue (v : PyVal).

Definition fixture_error_message (f : Fixture) : string :=
  "Unable to resolve fixture '" +:+ Fixture_name f +:+ "'".

Definition is_fixture_arg (arg : PyVal) : bool :=
  match arg with
  | VFunc f => match fn_meta f with
               | Some m => is_fixture m
               | None => false
               end
  | _ => false
  end.

(** [except Exception as e: raise FixtureError(...) from e] around the
    call of a fixture function: an [Exception] is wrapped, with itself as
    the cause; anything else is not caught and goes on as it is. *)
Definition raised_error (fixture : Fixture) (e : PyExc) : PyError :=
  if is_Exception e
  then FixtureError (fixture_error_message fixture) e
  else Uncaught e.

Definition _resolve_fixture_values (fixture_dict : list (string * Fixture))
  : list (string * PyVal) :=
  (λ kf, (kf.1, resolved_val kf.2)) <$> fixture_dict.

Section Resolution.
(** Fixture functions are arbitrary Python code.  [World] is whatever
    state they read and write, and [call_fn f kwargs w] is the effect of
    calling [f] with the keyword arguments [kwargs] in [w] (for a
    generator function: of calling it and resuming the generator once).
    The fixture cache is not part of that state. *)
Variable World : Type.
Variable call_fn : Func → list (string * PyVal) → World → Outcome * World.

Record RunState : Type := mkRunState {
  cache : FixtureCache;
  world : World;
  trace : list Event
}.

(** The two [try] blocks of [_resolve_single_fixture] with what follows
    them: call the function, wrap a raised [Exception] in a
    [FixtureError] and let any other exception through, otherwise record
    the value, cache the fixture and return it. *)
Definition invoke_fixture (fixture : Fixture)
    (kwargs : list (string * PyVal)) (st : RunState)
  : Result Fixture * RunState :=
  let '(out, w) := call_fn (fx_fn fixture) kwargs (world st) in
  let tr := trace st ++ [EvCall fixture kwargs out] in
  match out with
  | Raised e =>
      (Raise (raised_error fixture e),
       {| cache := cache st; world := w; trace := tr |})
  | Returned v =>
      let g := if is_generator_fixture fixture
               then Some (mkGenerator (fx_fn fixture) kwargs) else None in
      let fixture := set_resolved fixture g v in
      (Ok fixture,
       {| cache := cache_fixture (cache st) fixture; world := w;
          trace := tr |})
  end.

(** The loop over [children_defaults.arguments.items()]: the
    parameters of the fixture function that have a default, each
    resolved as a fixture in turn by [rec], whether it is marked as a
    fixture or not.

    Modelled from the spec: a [Fixture] wraps a callable and takes its key
    from it, so a default that is not a function object has no [Fixture];
    asking for one is a [TypeError]. *)
Definition resolve_children
    (rec : Func → RunState → Result Fixture * RunState)
  : list (string * option PyVal) → RunState →
    Result (list (string * Fixture)) * RunState :=
  fix loop params st :=
    match params with
    | [] => (Ok [], st)
    | (_, None) :: rest => loop rest st
    | (name, Some child_fixture) :: rest =>
        match (match child_fixture with
               | VFunc g => rec g st
               | _ => (Raise TypeError, st)
               end) with
        | (Raise e, st1) => (Raise e, st1)
        | (Ok child_resolved, st1) =>
            match loop rest st1 with
            | (Raise e, st2) => (Raise e, st2)
            | (Ok children_resolved, st2) =>
                (Ok ((name, child_resolved) :: children_resolved), st2)
            end
        end
    end.

Fixpoint _resolve_single_fixture (self : Test) (fixture_fn : Func)
    (st : RunState) {struct fixture_fn} : Result Fixture * RunState :=
  let fixture := Fixture_new fixture_fn in
  let hit :=
    match cache st !! Fixture_key fixture with
    | Some cached_fixture =>
        match Fixture_scope fixture with
        | Scope_Global => Some cached_fixture
        | Scope_Module =>
            if bool_decide (last_resolved_module_name cached_fixture
                            = Some (module_name self))
            then Some cached_fixture else None
        | Scope_Test =>
            if bool_decide (last_resolved_test_id cached_fixture
                            = Some (id self))
            then Some cached_fixture else None
        end
    | None => None
    end in
  match hit with
  | Some cached_fixture => (Ok cached_fixture, st)
  | None =>
      let fixture := set_last_resolved fixture (id self) (module_name self) in
      let has_deps := bool_decide (0 < length (Fixture_deps fixture)) in
      if negb has_deps then invoke_fixture fixture [] st
      else
        match fixture_fn with
        | mkFunc _ _ _ _ _ params =>
            match resolve_children (_resolve_single_fixture self) params st with
            | (Raise e, st1) => (Raise e, st1)
            | (Ok children_resolved, st1) =>
                invoke_fixture fixture
                  (_resolve_fixture_values children_resolved) st1
            end
        end
  end.

(** The body of the loop of [resolve_args] after the [Each]
    substitution: a value marked as a fixture is resolved, anything
    else is taken as it is. *)
Definition resolve_argument (self : Test) (arg : PyVal) (st : RunState)
  : Result Resolved * RunState :=
  match arg with
  | VFunc f =>
      if is_fixture_arg arg
      then match _resolve_single_fixture self f st with
           | (Ok fixture, st1) => (Ok (RFixture fixture), st1)
           | (Raise e, st1) => (Raise e, st1)
           end
      else (Ok (RValue arg), st)
  | _ => (Ok (RValue arg), st)
  end.

(** The loop of [resolve_args] over [default_args.items()]. *)
Fixpoint resolve_items (self : Test) (iteration : Z)
    (items : list (string * PyVal)) (st : RunState)
  : Result (list (string * Resolved)) * RunState :=
  match items with
  | [] => (Ok [], st)
  | (name, arg) :: rest =>
      match (if isinstance_Each arg then Each_getitem arg iteration
             else Ok arg) with
      | Raise e => (Raise e, st)
      | Ok arg =>
          match resolve_argument self arg st with
          | (Raise e, st1) => (Raise e, st1)
          | (Ok resolved, st1) =>
              match resolve_items self iteration rest st1 with
              | (Raise e, st2) => (Raise e, st2)
              | (Ok resolved_args, st2) =>
                  (Ok ((name, resolved) :: resolved_args), st2)
              end
          end
      end
  end.

Definition resolve_args (self : Test) (iteration : Z) (st : RunState)
  : Result (list (string * Resolved)) * RunState :=
  if negb (has_deps self) then (Ok [], st)
  else resolve_items self iteration (_get_default_args self) st.
End Resolution.

Arguments mkRunState {World} cache world trace.
Arguments cache {World} r.
Arguments world {World} r.
Arguments trace {World} r.
Arguments invoke_fixture {World} call_fn fixture kwargs st.
Arguments resolve_children {World} rec params st.
Arguments _resolve_single_fixture {World} call_fn self fixture_fn st.
Arguments resolve_argument {World} call_fn self arg st.
Arguments resolve_items {World} call_fn self iteration items st.
Arguments resolve_args {World} call_fn self iteration st.

(** ** The [test] decorator and the registry of anonymous tests *)

(** Function objects are mutable and shared: the decorator writes the
    [ward_meta] attribute of the function it is given, stores that same
    function in the registry, and [functools.wraps] hands the attribute
    dictionary on to the wrapper.  Functions and [WardMeta] objects
    therefore live in a store and are referred to by address. *)
Record FunctionObject : Type := mkFunctionObject {
  __name__ : string;
  __module__ : string;
  ward_meta : option nat;
  __wrapped__ : option nat
}.

Record Store : Type := mkStore {
  functions : gmap nat FunctionObject;
  metas : gmap nat WardMeta;
  anonymous_tests : gmap string (list nat)
}.

Definition set_description (m : WardMeta) (description : string) : WardMeta :=
  {| meta_marker := meta_marker m; meta_description := Some description;
     is_fixture := is_fixture m |}.

(** The [hasattr(func, "ward_meta")] branch: write the description into
    the existing metadata object, or hang a new
    [WardMeta(description=description)] on the function. *)
Definition attach_description (description : string) (func : nat)
    (fo : FunctionObject) (s : Store) : option Store :=
  match ward_meta fo with
  | Some r =>
      m ← metas s !! r;
      Some {| functions := functions s;
              metas := <[r := set_description m description]> (metas s);
              anonymous_tests := anonymous_tests s |}
  | None =>
      let r := fresh (dom (metas s)) in
      Some {| functions :=
                <[func := {| __name__ := __name__ fo;
                             __module__ := __module__ fo;
                             ward_meta := Some r;
                             __wrapped__ := __wrapped__ fo |}]> (functions s);
              metas := <[r := mkWardMeta None (Some description) false]>
                         (metas s);
              anonymous_tests := anonymous_tests s |}
  end.

(** [anonymous_tests[mod_name].append(func)] on a [defaultdict(list)]. *)
Definition register_anonymous (mod_name : string) (func : nat) (s : Store)
  : Store :=
  {| functions := functions s; metas := metas s;
     anonymous_tests :=
       <[mod_name := default [] (anonymous_tests s !! mod_name) ++ [func]]>
         (anonymous_tests s) |}.

(** [functools.wraps(func)(wrapper)]: a new function object that takes
    over name, module and attribute dictionary of [func] and remembers it
    as [__wrapped__]. *)
Definition wraps (func : nat) (s : Store) : option (nat * Store) :=
  fo ← functions s !! func;
  let wrapper := fresh (dom (functions s)) in
  Some (wrapper,
        {| functions :=
             <[wrapper := {| __name__ := __name__ fo;
                             __module__ := __module__ fo;
                             ward_meta := ward_meta fo;
                             __wrapped__ := Some func |}]> (functions s);
           metas := metas s;
           anonymous_tests := anonymous_tests s |}).

(** [test(description)(func)].  [None] stands for a dangling address,
    which a well-formed store does not have. *)
Definition test (description : string) (func : nat) (s : Store)
  : option (nat * Store) :=
  fo ← functions s !! func;
  s1 ← (if bool_decide (__name__ fo = "_")
        then s' ← attach_description description func fo s;
             Some (register_anonymous (__module__ fo) func s')
        else Some s);
  wraps func s1.

(** The description a function carries, if any. *)
Definition description_of (s : Store) (func : nat) : option string :=
  fo ← functions s !! func;
  r ← ward_meta fo;
  m ← metas s !! r;
  meta_description m.

(** ** Vocabulary of the properties *)

(** The scope rule of the cache: when an entry may be reused for a
    request coming from [self]. *)
Definition scope_validates (self : Test) (scope : Scope) (entry : Fixture)
  : Prop :=
  match scope with
  | Scope_Global => True
  | Scope_Module => last_resolved_module_name entry = Some (module_name self)
  | Scope_Test => last_resolved_test_id entry = Some (id self)
  end.

(** The cache holds [entry] under the key of [fixture_fn] and the scope
    rule lets [self] reuse it. *)
Definition cache_hit (self : Test) (fixture_fn : Func) (c : FixtureCache)
    (entry : Fixture) : Prop :=
  c !! fn_key fixture_fn = Some entry
  ∧ scope_validates self (fn_scope fixture_fn) entry.

(** The fixture object on whose behalf a function is invoked on a cache
    miss: a new wrapper with the bookkeeping of the requesting test. *)
Definition pending (self : Test) (fixture_fn : Func) : Fixture :=
  set_last_resolved (Fixture_new fixture_fn) (id self) (module_name self).

(** The fixture of an invocation is the pending fixture of its function:
    it carries the bookkeeping of [self] and no resolved value yet. *)
Definition bookkeeping_set (self : Test) (ev : Event) : Prop :=
  match ev with
  | EvCall fixture _ _ => fixture = pending self (fx_fn fixture)
  end.

(** The [Fixture] that is cached after an invocation that returned. *)
Definition stored_fixture (fixture : Fixture)
    (kwargs : list (string * PyVal)) (v : PyVal) : Fixture :=
  set_resolved fixture
    (if is_generator_fixture fixture
     then Some (mkGenerator (fx_fn fixture) kwargs) else None) v.

(** The cache that a sequence of invocations leaves behind: each
    invocation that returned stores its fixture, one that raised stores
    nothing. *)
Definition cache_after (evs : list Event) (c : FixtureCache) : FixtureCache :=
  foldl (λ c ev, match ev with
                 | EvCall fixture kwargs (Returned v) =>
                     cache_fixture c (stored_fixture fixture kwargs v)
                 | EvCall _ _ (Raised _) => c
                 end) c evs.

(** [entry] was cached under [k] by one of the invocations [evs]. *)
Definition stored_by (evs : list Event) (k : string) (entry : Fixture) : Prop :=
  ∃ fixture kwargs v,
    EvCall fixture kwargs (Returned v) ∈ evs
    ∧ Fixture_key fixture = k
    ∧ entry = stored_fixture fixture kwargs v.

(** The exception a result stands for, if it is one. *)
Definition error_of {A} (r : Result A) : option PyError :=
  match r with Ok _ => None | Raise e => Some e end.

(** The value an argument stands for in a given iteration. *)
Definition substituted (iteration : Z) (arg : PyVal) : Result PyVal :=
  if isinstance_Each arg then Each_getitem arg iteration else Ok arg.

(** The number of function objects reachable through defaults; the
    measure the resolution recurses on. *)
Fixpoint Func_size (f : Func) : nat :=
  match f with
  | mkFunc _ _ _ _ _ params =>
      S ((fix go (ps : list (string * option PyVal)) : nat :=
            match ps with
            | [] => 0
            | (_, Some (VFunc g)) :: rest => Func_size g + go rest
            | _ :: rest => go rest
            end) params)
  end.

(** The cache test at the head of [_resolve_single_fixture]. *)
Definition lookup_hit (self : Test) (fixture_fn : Func) (c : FixtureCache)
  : option Fixture :=
  match c !! fn_key fixture_fn with
  | Some cached_fixture =>
      match fn_scope fixture_fn with
      | Scope_Global => Some cached_fixture
      | Scope_Module =>
          if bool_decide (last_resolved_module_name cached_fixture
                          = Some (module_name self))
          then Some cached_fixture else None
      | Scope_Test =>
          if bool_decide (last_resolved_test_id cached_fixture
                          = Some (id self))
          then Some cached_fixture else None
      end
  | None => None
  end.

(** [Test(fn=self.fn, module_name=self.module_name, marker=self.marker,
    description=self.description)] with the identifier [new_id]. *)
Definition clone (self : Test) (new_id : string) : Test :=
  {| fn := fn self; module_name := module_name self; id := new_id;
     marker := marker self; description := description self |}.

(** What every piece of the resolution guarantees about the state it
    leaves: the trace only grows, every invocation is made with the
    bookkeeping of [self] in place, an invocation that raises ends the
    run with the matching error, and the cache changes only by the
    fixtures of the invocations that returned. *)
Definition run_ok {World : Type} (self : Test) (st : RunState World)
    (err : option PyError) (st' : RunState World) : Prop :=
  ∃ evs,
    trace st' = trace st ++ evs
    ∧ Forall (bookkeeping_set self) evs
    ∧ (∀ fixture kwargs e,
          EvCall fixture kwargs (Raised e) ∈ evs →
          err = Some (raised_error fixture e)
          ∧ last evs = Some (EvCall fixture kwargs (Raised e)))
    ∧ cache st' = cache_after evs (cache st).

(** The [Fixture] a fixture argument is mapped to, for a call that
    started with cache [c] and made the invocations [evs]: the entry [c]
    held under the key of the function, or one cached under that key
    during the call. *)
Definition fixture_for (c : FixtureCache) (evs : list Event) (arg : PyVal)
    (fx : Fixture) : Prop :=
  match arg with
  | VFunc f => c !! fn_key f = Some fx ∨ stored_by evs (fn_key f) fx
  | _ => False
  end.

(** The entry [out] of the returned mapping is what the default argument
    [item] resolves to. *)
Definition resolves_to (c : FixtureCache) (evs : list Event) (iteration : Z)
    (item : string * PyVal) (out : string * Resolved) : Prop :=
  out.1 = item.1
  ∧ ∃ arg, substituted iteration item.2 = Ok arg
      ∧ if is_fixture_arg arg
        then ∃ fx, out.2 = RFixture fx ∧ fixture_for c evs arg fx
        else out.2 = RValue arg.

(** ** Sample fixtures and tests *)

Definition fixture_meta : WardMeta := mkWardMeta None None true.

(** A world that only counts calls.  The function named [broken] always
    raises, those named [flaky] and [settings] return on the very first
    call of the run and raise from then on, every other function returns
    its name together with the values it was given. *)
Definition sample_call (f : Func) (kwargs : list (string * PyVal))
    (calls : nat) : Outcome * nat :=
  if String.eqb (fn_name f) "broken"
  then (Raised (Exc "RuntimeError" "no database"), S calls)
  else if ((String.eqb (fn_name f) "flaky" || String.eqb (fn_name f) "settings")
           && (0 <? calls))%bool
  then (Raised (Exc "RuntimeError" "gone"), S calls)
  else (Returned (VTuple (VStr (fn_name f) :: kwargs.*2)), S calls).

Definition fresh_run : RunState nat := mkRunState ∅ 0 [].

Definition test_fn (name : string) (params : list (string * option PyVal))
  : Func :=
  mkFunc name ("test_sample.py::" +:+ name) Scope_Test None false params.

Definition fix_db : Func :=
  mkFunc "db" "conftest.py::db" Scope_Test (Some fixture_meta) false [].
Definition test_query : Test :=
  mkTest (test_fn "test_query"
            [("db", Some (VFunc fix_db)); ("limit", Some (VInt 5))])
         "test_sample" "t-query" None None.

Definition fix_c : Func :=
  mkFunc "c" "conftest.py::c" Scope_Test (Some fixture_meta) false [].
Definition fix_b : Func :=
  mkFunc "b" "conftest.py::b" Scope_Module (Some fixture_meta) false
         [("c", Some (VFunc fix_c))].
Definition fix_a : Func :=
  mkFunc "a" "conftest.py::a" Scope_Global (Some fixture_meta) true
         [("b", Some (VFunc fix_b))].
Definition test_chain : Test :=
  mkTest (test_fn "test_chain" [("a", Some (VFunc fix_a))])
         "test_sample" "t-chain" None None.

Definition fix_flaky : Func :=
  mkFunc "flaky" "conftest.py::flaky" Scope_Test (Some fixture_meta) false [].
Definition test_first : Test :=
  mkTest (test_fn "test_first" [("flaky", Some (VFunc fix_flaky))])
         "test_sample" "t-first" None None.
Definition test_second : Test :=
  mkTest (test_fn "test_second" [("flaky", Some (VFunc fix_flaky))])
         "test_sample" "t-second" None None.
(** The run after [test_first] has resolved its arguments. *)
Definition run_after_first : RunState nat :=
  (resolve_args sample_call test_first 0 fresh_run).2.

Definition fix_settings : Func :=
  mkFunc "settings" "conftest.py::settings" Scope_Module (Some fixture_meta)
         false [].
Definition test_in_m1 : Test :=
  mkTest (test_fn "test_one" [("settings", Some (VFunc fix_settings))])
         "m1" "t-one" None None.
Definition test_in_m2 : Test :=
  mkTest (test_fn "test_two" [("settings", Some (VFunc fix_settings))])
         "m2" "t-two" None None.
Definition run_after_m1 : RunState nat :=
  (resolve_args sample_call test_in_m1 0 fresh_run).2.

Definition fix_broken : Func :=
  mkFunc "broken" "conftest.py::broken" Scope_Test (Some fixture_meta) false [].
Definition test_broken_each : Test :=
  mkTest (test_fn "test_broken_each"
            [("svc", Some (VFunc fix_broken));
             ("n", Some (each [VInt 1; VInt 2]))])
         "test_sample" "t-broken" None None.
Definition test_each : Test :=
  mkTest (test_fn "test_each"
            [("limit", Some (VInt 5)); ("n", Some (each [VInt 1; VInt 2]))])
         "test_sample" "t-each" None None.

Definition test_each3 : Test :=
  mkTest (test_fn "test_each3"
            [("x", Some (each [VInt 1; VInt 2; VInt 3]));
             ("y", Some (each [VStr "a"; VStr "b"; VStr "c"]))])
         "test_sample" "0" (Some (SkipMarker None)) (Some "three rows").
Definition test_uneven : Test :=
  mkTest (test_fn "test_uneven"
            [("x", Some (each [VInt 1; VInt 2]));
             ("y", Some (each [VStr "a"; VStr "b"; VStr "c"]))])
         "test_sample" "t-uneven" None None.

(** A module with one anonymous and one named test function. *)
Definition sample_store : Store :=
  mkStore {[ 0 := mkFunctionObject "_" "test_mod" None None;
             1 := mkFunctionObject "test_named" "test_mod" None None ]}
          ∅ ∅.

(** ** Further vocabulary and samples *)

(** A world in which every fixture function is interrupted from the
    keyboard. *)
Definition interrupted_call (f : Func) (kwargs : list (string * PyVal))
    (calls : nat) : Outcome * nat :=
  (Raised (BaseExc "KeyboardInterrupt" ""), S calls).

(** The errors that come out of resolving a fixture. *)
Definition fixture_failure (e : PyError) : Prop :=
  match e with
  | FixtureError _ _ | TypeError | Uncaught _ => True
  | ParameterisationError _ | IndexError => False
  end.

(** The keyword arguments of an invocation name the parameters of the
    function that have a default, in signature order. *)
Definition kwargs_match (ev : Event) : Prop :=
  match ev with
  | EvCall fixture kwargs _ =>
      kwargs.*1 = (default_arguments (fn_params (fx_fn fixture))).*1
  end.

(** Every entry of the cache is filed under its own key. *)
Definition well_keyed (c : FixtureCache) : Prop :=
  ∀ k entry, c !! k = Some entry → Fixture_key entry = k.

(** When a request of test [b] may reuse what was resolved for test [a]. *)
Definition same_scope (scope : Scope) (a b : Test) : Prop :=
  match scope with
  | Scope_Global => True
  | Scope_Module => module_name b = module_name a
  | Scope_Test => id b = id a
  end.

(** The entry of [fix_a] once the chain has been resolved for
    [test_chain]. *)
Definition chain_entry_a : Fixture :=
  stored_fixture (pending test_chain fix_a)
    [("b", VTuple [VStr "b"; VTuple [VStr "c"]])]
    (VTuple [VStr "a"; VTuple [VStr "b"; VTuple [VStr "c"]]]).

(** The invocations of a run all call their function with its defaulted
    parameters. *)
Definition kwargs_ok {World : Type} (st st' : RunState World) : Prop :=
  ∃ evs, trace st' = trace st ++ evs ∧ Forall kwargs_match evs.

(** ** The [skip] and [xfail] decorators *)

Definition set_marker (m : WardMeta) (marker : Marker) : WardMeta :=
  {| meta_marker := Some marker; meta_description := meta_description m;
     is_fixture := is_fixture m |}.

(** The [hasattr(func, "ward_meta")] branch of [skip] and [xfail]: write
    the marker into the existing metadata object, or hang a new
    [WardMeta(marker=marker)] on the function. *)
Definition attach_marker (marker : Marker) (func : nat)
    (fo : FunctionObject) (s : Store) : option Store :=
  match ward_meta fo with
  | Some r =>
      m ← metas s !! r;
      Some {| functions := functions s;
              metas := <[r := set_marker m marker]> (metas s);
              anonymous_tests := anonymous_tests s |}
  | None =>
      let r := fresh (dom (metas s)) in
      Some {| functions :=
                <[func := {| __name__ := __name__ fo;
                             __module__ := __module__ fo;
                             ward_meta := Some r;
                             __wrapped__ := __wrapped__ fo |}]> (functions s);
              metas := <[r := mkWardMeta (Some marker) None false]> (metas s);
              anonymous_tests := anonymous_tests s |}
  end.

(** What [skip] and [xfail] are called with: nothing, a reason string, or
    the function to decorate. *)
Inductive DecoratorArg : Type :=
| NoArgument
| ReasonArg (reason : string)
| FunctionArg (func : nat).

(** What they return: [functools.partial] of themselves with the reason
    bound, to be called with the function, or the wrapper of the function
    they marked. *)
Inductive Decorated : Type :=
| PartialDecorator (reason : option string)
| Wrapped (wrapper : nat).

Definition skip (func_or_reason : DecoratorArg) (reason : option string)
    (s : Store) : option (Decorated * Store) :=
  match func_or_reason with
  | NoArgument => Some (PartialDecorator reason, s)
  | ReasonArg func_or_reason => Some (PartialDecorator (Some func_or_reason), s)
  | FunctionArg func =>
      fo ← functions s !! func;
      s1 ← attach_marker (SkipMarker reason) func fo s;
      ws ← wraps func s1;
      Some (Wrapped ws.1, ws.2)
  end.

Definition xfail (func_or_reason : DecoratorArg) (reason : option string)
    (s : Store) : option (Decorated * Store) :=
  match func_or_reason with
  | NoArgument => Some (PartialDecorator reason, s)
  | ReasonArg func_or_reason => Some (PartialDecorator (Some func_or_reason), s)
  | FunctionArg func =>
      fo ← functions s !! func;
      s1 ← attach_marker (XfailMarker reason) func fo s;
      ws ← wraps func s1;
      Some (Wrapped ws.1, ws.2)
  end.

(** The metadata object a function refers to, and what it holds. *)
Definition meta_ref (s : Store) (func : nat) : option nat :=
  fo ← functions s !! func; ward_meta fo.

Definition meta_of (s : Store) (func : nat) : option WardMeta :=
  r ← meta_ref s func; metas s !! r.

Definition marker_of (s : Store) (func : nat) : option Marker :=
  m ← meta_of s func; meta_marker m.

(** No function refers to a metadata object that is not there. *)
Definition store_wf (s : Store) : Prop :=
  ∀ func r, meta_ref s func = Some r → is_Some (metas s !! r).

(** The common shape of [attach_description] and [attach_marker]. *)
Definition attach_meta (upd : WardMeta → WardMeta) (init : WardMeta)
    (func : nat) (fo : FunctionObject) (s : Store) : option Store :=
  match ward_meta fo with
  | Some r =>
      m ← metas s !! r;
      Some {| functions := functions s;
              metas := <[r := upd m]> (metas s);
              anonymous_tests := anonymous_tests s |}
  | None =>
      let r := fresh (dom (metas s)) in
      Some {| functions :=
                <[func := {| __name__ := __name__ fo;
                             __module__ := __module__ fo;
                             ward_meta := Some r;
                             __wrapped__ := __wrapped__ fo |}]> (functions s);
              metas := <[r := init]> (metas s);
              anonymous_tests := anonymous_tests s |}
  end.

(** What a decorator does to the store, as far as metadata goes: [func]
    ends up referring to the object [r] holding [m]; a function of the
    old store keeps its reference; other objects are untouched; and [r]
    is the object [func] referred to before, or a new one. *)
Definition meta_written (s s' : Store) (func r : nat) (m : WardMeta) : Prop :=
  meta_ref s' func = Some r
  ∧ metas s' !! r = Some m
  ∧ (∀ a, a ≠ func → is_Some (functions s !! a) →
          meta_ref s' a = meta_ref s a)
  ∧ (∀ r', r' ≠ r → metas s' !! r' = metas s !! r')
  ∧ (meta_ref s func = Some r
     ∨ (meta_ref s func = None ∧ metas s !! r = None)).

(** Every function of [s] is still there in [s'], under the same name
    and module. *)
Definition names_kept (s s' : Store) : Prop :=
  ∀ a fo, functions s !! a = Some fo →
          ∃ fo', functions s' !! a = Some fo'
                 ∧ __name__ fo' = __name__ fo
                 ∧ __module__ fo' = __module__ fo.

(** [wrapper] is a new function object wrapping [func], with the name,
    module and metadata object of [func]. *)
Definition wrapper_of (s s' : Store) (func wrapper : nat)
    (fo : FunctionObject) : Prop :=
  functions s !! wrapper = None
  ∧ meta_ref s' wrapper = meta_ref s' func
  ∧ ∃ wo, functions s' !! wrapper = Some wo
          ∧ __wrapped__ wo = Some func
          ∧ __name__ wo = __name__ fo
          ∧ __module__ wo = __module__ fo.

(** The metadata [skip] or [xfail] leaves on a function. *)
Definition marked (old : option WardMeta) (marker : Marker) : WardMeta :=
  match old with
  | Some m => set_marker m marker
  | None => mkWardMeta (Some marker) None false
  end.

(** The metadata [test] leaves on an anonymous function. *)
Definition described (old : option WardMeta) (description : string)
  : WardMeta :=
  match old with
  | Some m => set_description m description
  | None => mkWardMeta None (Some description) false
  end.

(** The function branch of [skip] and [xfail]. *)
Definition mark_function (marker : Marker) (func : nat) (s : Store)
  : option (Decorated * Store) :=
  fo ← functions s !! func;
  s1 ← attach_marker marker func fo s;
  ws ← wraps func s1;
  Some (Wrapped ws.1, ws.2).

(** The sample module after [skip("slow")] on its anonymous function,
    after [test("adds numbers")] on it, and after each of the two on what
    the other returned. *)
Definition store_skipped : Store :=
  default sample_store
    (snd <$> skip (FunctionArg 0) (Some "slow") sample_store).
Definition store_tested : Store :=
  default sample_store (snd <$> test "adds numbers" 0 sample_store).
Definition store_skipped_tested : Store :=
  default sample_store (snd <$> test "adds numbers" 2 store_skipped).
Definition store_tested_skipped : Store :=
  default sample_store
    (snd <$> skip (FunctionArg 2) (Some "slow") store_tested).
Definition store_skipped_xfailed : Store :=
  default sample_store
    (snd <$> xfail (FunctionArg 2) (Some "flaky") store_skipped).

(** A module with two anonymous test functions, and what it is after
    both have gone through [test]. *)
Definition two_anonymous : Store :=
  mkStore {[ 0 := mkFunctionObject "_" "test_mod" None None;
             1 := mkFunctionObject "_" "test_mod" None None ]}
          ∅ ∅.
Definition two_anonymous_tested : Store :=
  default two_anonymous
    (snd <$> test "second" 1
       (default two_anonymous (snd <$> test "first" 0 two_anonymous))).

(** * Properties *)

(** Membership in a list that is written out: one case per element. *)
Ltac elem_cases H :=
  vm_compute in H;
  repeat (apply elem_of_cons in H as [H | H]; [by simplify_eq|]);
  by apply elem_of_nil in H.

(** ** Parameterisation *)

Lemma default_arguments_elem params name v :
  (name, v) ∈ default_arguments params ↔ (name, Some v) ∈ params.
Proof.
  unfold default_arguments. rewrite list_elem_of_omap. split.
  - intros [[n o] [Hin Heq]]. simpl in Heq. destruct o; simplify_eq. done.
  - intros Hin. exists (name, Some v). done.
Qed.

Lemma is_parameterised_true self :
  is_parameterised self = true ↔
  ∃ name args, (name, VEach args) ∈ _get_default_args self.
Proof.
  unfold is_parameterised. rewrite existsb_exists. split.
  - intros [arg [Hin Hq]]. apply list_elem_of_In, list_elem_of_fmap in Hin.
    destruct Hin as [[n v] [-> Hin]]. destruct v; try discriminate.
    by exists n, args.
  - intros (n & args & Hin). exists (VEach args). split; [|done].
    apply list_elem_of_In, list_elem_of_fmap. by exists (n, VEach args).
Qed.

Lemma each_lengths_elem self n :
  n ∈ each_lengths self ↔
  ∃ name args, (name, VEach args) ∈ _get_default_args self ∧ length args = n.
Proof.
  unfold each_lengths. rewrite list_elem_of_fmap. split.
  - intros [arg [-> Hin]]. apply list_elem_of_filter in Hin as [Hq Hin].
    apply list_elem_of_fmap in Hin as [[nm v] [-> Hin]].
    destruct v; try discriminate. by exists nm, args.
  - intros (nm & args & Hin & <-). exists (VEach args). split; [done|].
    apply list_elem_of_filter. split; [done|].
    apply list_elem_of_fmap. by exists (nm, VEach args).
Qed.

Lemma find_number_equal self n :
  is_parameterised self = true →
  (∀ m, m ∈ each_lengths self → m = n) →
  _find_number_of_instances self = Ok n.
Proof.
  intros Hp Hall. unfold _find_number_of_instances.
  apply is_parameterised_true in Hp as (nm & args & Hin).
  assert (Hn : n ∈ each_lengths self).
  { assert (H : length args ∈ each_lengths self) by (apply each_lengths_elem; eauto).
    by rewrite <- (Hall _ H). }
  assert (Hset : (list_to_set (each_lengths self) : gset nat) = {[ n ]}).
  { apply set_eq. intros m. rewrite elem_of_list_to_set, elem_of_singleton.
    split; [by apply Hall | by intros ->]. }
  rewrite Hset, size_singleton. simpl.
  destruct (each_lengths self) as [|m l] eqn:E.
  - by apply elem_of_nil in Hn.
  - simpl. f_equal. apply Hall. left.
Qed.

Lemma find_number_unequal self a b :
  a ∈ each_lengths self → b ∈ each_lengths self → a ≠ b →
  _find_number_of_instances self
  = Raise (ParameterisationError (parameterisation_message self)).
Proof.
  intros Ha Hb Hne. unfold _find_number_of_instances.
  assert (Hsz : (2 ≤ size (list_to_set (each_lengths self) : gset nat))%nat).
  { assert (Hsub : ({[a; b]} : gset nat) ⊆ list_to_set (each_lengths self)).
    { intros x. rewrite elem_of_union, !elem_of_singleton, elem_of_list_to_set.
      by intros [-> | ->]. }
    apply subseteq_size in Hsub. rewrite size_union in Hsub by set_solver.
    by rewrite !size_singleton in Hsub. }
  rewrite bool_decide_eq_false_2; [done | lia].
Qed.

Lemma generate_tests_seq uuid4 self count drawn :
  generate_tests uuid4 self count drawn
  = ((λ i, clone self (uuid4 i)) <$> seq drawn count, drawn + count).
Proof.
  revert drawn. induction count as [|c IH]; intros drawn; simpl.
  - by rewrite Nat.add_0_r.
  - rewrite IH. unfold clone. f_equal. lia.
Qed.

(** C4.  A parameterised test whose [Each] default arguments all have
    length [n] expands into exactly [n] new tests.  Each has an
    identifier drawn afresh from [uuid4], so that, [uuid4] never repeating
    a draw and never drawing the identifier of the original again, the
    identifiers differ from one another and from the original's; each
    shares the function, module name, marker and description of the
    original. *)
Theorem C4_parameterised_instances
    (uuid4 : nat → string) (self : Test) (drawn n : nat) :
  Inj (=) (=) uuid4 →
  (∀ i, drawn ≤ i → uuid4 i ≠ id self) →
  is_parameterised self = true →
  (∀ name args, (name, VEach args) ∈ _get_default_args self → length args = n) →
  ∃ tests,
    get_parameterised_instances uuid4 self drawn = (Ok tests, drawn + n)
    ∧ length tests = n
    ∧ NoDup (id <$> tests)
    ∧ (id self ∉ id <$> tests)
    ∧ Forall (λ t, fn t = fn self ∧ module_name t = module_name self
                   ∧ marker t = marker self
                   ∧ description t = description self) tests.
Proof.
  intros Hinj Hfresh Hpar Hlen.
  exists ((λ i, clone self (uuid4 i)) <$> seq drawn n).
  assert (Hids : id <$> ((λ i, clone self (uuid4 i)) <$> seq drawn n)
                 = uuid4 <$> seq drawn n).
  { rewrite <- list_fmap_compose. by apply list_fmap_ext. }
  repeat split.
  - unfold get_parameterised_instances. rewrite Hpar. simpl.
    rewrite (find_number_equal self n Hpar).
    + by rewrite generate_tests_seq.
    + intros m Hm. apply each_lengths_elem in Hm as (nm & args & Hin & <-).
      eauto.
  - by rewrite length_fmap, length_seq.
  - rewrite Hids. apply NoDup_fmap_2; [done | apply NoDup_seq].
  - rewrite Hids. intros Hin. apply list_elem_of_fmap in Hin as [i [Hi Hin]].
    apply elem_of_seq in Hin. apply (Hfresh i); [lia | done].
  - apply Forall_fmap, Forall_forall. by intros i _.
Qed.

(** C5.  A test with two [Each] default arguments of different lengths
    does not expand: [get_parameterised_instances] raises a
    [ParameterisationError] whose message names the test, no instance is
    built and no identifier is drawn. *)
Theorem C5_unequal_lengths
    (uuid4 : nat → string) (self : Test) (drawn : nat)
    (name1 name2 : string) (args1 args2 : list PyVal) :
  (name1, VEach args1) ∈ _get_default_args self →
  (name2, VEach args2) ∈ _get_default_args self →
  length args1 ≠ length args2 →
  ∃ msg,
    get_parameterised_instances uuid4 self drawn
    = (Raise (ParameterisationError msg), drawn)
    ∧ ∃ rest, msg = "The test " +:+ name self +:+ rest.
Proof.
  intros H1 H2 Hne. exists (parameterisation_message self). split.
  - unfold get_parameterised_instances.
    assert (Hpar : is_parameterised self = true)
      by (apply is_parameterised_true; eauto).
    rewrite Hpar. simpl.
    rewrite (find_number_unequal self (length args1) (length args2)); try done.
    all: apply each_lengths_elem; eauto.
  - unfold parameterisation_message. eexists. reflexivity.
Qed.

(** C6.  [is_parameterised] is true exactly when some default argument
    is an [Each]; and for a test none of whose default arguments is an
    [Each] it is false and [get_parameterised_instances] returns the list
    holding the test itself, identifier included, without drawing a new
    identifier. *)
Theorem C6_not_parameterised
    (uuid4 : nat → string) (self : Test) (drawn : nat) :
  (is_parameterised self = true
   ↔ ∃ name args, (name, VEach args) ∈ _get_default_args self)
  ∧ ((∀ name arg, (name, arg) ∈ _get_default_args self →
                  isinstance_Each arg = false) →
     is_parameterised self = false
     ∧ get_parameterised_instances uuid4 self drawn = (Ok [self], drawn)).
Proof.
  split; [apply is_parameterised_true|].
  intros Hnone.
  assert (Hp : is_parameterised self = false).
  { destruct (is_parameterised self) eqn:E; [|done].
    apply is_parameterised_true in E as (nm & args & Hin).
    by apply Hnone in Hin. }
  split; [done|]. unfold get_parameterised_instances. by rewrite Hp.
Qed.

(** C4 at a test with two [Each] arguments of length 3, identifiers being
    the decimal numerals. *)
Lemma C4_parameterised_instances_witness :
  ∃ tests,
    get_parameterised_instances pretty test_each3 1 = (Ok tests, 1 + 3)
    ∧ length tests = 3
    ∧ NoDup (id <$> tests)
    ∧ (id test_each3 ∉ id <$> tests)
    ∧ Forall (λ t, fn t = fn test_each3
                   ∧ module_name t = module_name test_each3
                   ∧ marker t = marker test_each3
                   ∧ description t = description test_each3) tests.
Proof.
  apply (C4_parameterised_instances pretty test_each3 1 3).
  - apply _.
  - intros i Hi Heq. change (id test_each3) with (pretty 0) in Heq.
    apply (inj pretty) in Heq. lia.
  - reflexivity.
  - intros name args Hin. elem_cases Hin.
Defined.

(** C5 at a test with [Each] arguments of length 2 and 3. *)
Lemma C5_unequal_lengths_witness :
  ∃ msg,
    get_parameterised_instances pretty test_uneven 7
    = (Raise (ParameterisationError msg), 7)
    ∧ ∃ rest, msg = "The test " +:+ name test_uneven +:+ rest.
Proof.
  apply (C5_unequal_lengths pretty test_uneven 7 "x" "y"
           [VInt 1; VInt 2] [VStr "a"; VStr "b"; VStr "c"]).
  - left.
  - right. left.
  - simpl. lia.
Defined.

(** C6 at a test with a fixture argument and a literal argument. *)
Lemma C6_not_parameterised_witness :
  is_parameterised test_query = false
  ∧ get_parameterised_instances pretty test_query 7 = (Ok [test_query], 7).
Proof.
  apply (proj2 (C6_not_parameterised pretty test_query 7)).
  intros name arg Hin. elem_cases Hin.
Defined.


(** ** Function objects *)

Lemma Func_size_child f name g :
  (name, Some (VFunc g)) ∈ fn_params f → Func_size g < Func_size f.
Proof.
  destruct f as [n k s m ig ps]. simpl. intros Hin.
  apply Nat.lt_succ_r. induction ps as [|[n' [v|]] ps IH].
  - by apply elem_of_nil in Hin.
  - apply elem_of_cons in Hin as [Heq | Hin].
    + inversion Heq; subst. lia.
    + specialize (IH Hin). destruct v; lia.
  - apply elem_of_cons in Hin as [Heq | Hin]; [discriminate|]. by apply IH.
Qed.

(** Induction along the dependencies of a fixture function. *)
Lemma Func_deps_ind (P : Func → Prop) :
  (∀ f, (∀ name g, (name, Some (VFunc g)) ∈ fn_params f → P g) → P f) →
  ∀ f, P f.
Proof.
  intros step f. remember (Func_size f) as n eqn:En.
  revert f En. induction n as [n IH] using lt_wf_ind. intros f ->.
  apply step. intros name g Hin. apply (IH (Func_size g)); [|done].
  by eapply Func_size_child.
Qed.

(** ** The cache left by a sequence of invocations *)

Lemma cache_after_app evs1 evs2 c :
  cache_after (evs1 ++ evs2) c = cache_after evs2 (cache_after evs1 c).
Proof. unfold cache_after. by rewrite foldl_app. Qed.

Lemma stored_by_app_l evs1 evs2 k entry :
  stored_by evs1 k entry → stored_by (evs1 ++ evs2) k entry.
Proof.
  intros (fx & kw & v & Hin & Hk & He). exists fx, kw, v.
  rewrite elem_of_app. auto.
Qed.

Lemma stored_by_app_r evs1 evs2 k entry :
  stored_by evs2 k entry → stored_by (evs1 ++ evs2) k entry.
Proof.
  intros (fx & kw & v & Hin & Hk & He). exists fx, kw, v.
  rewrite elem_of_app. auto.
Qed.

Lemma cache_after_lookup evs c k entry :
  cache_after evs c !! k = Some entry →
  c !! k = Some entry ∨ stored_by evs k entry.
Proof.
  revert c. induction evs as [|[fx kw [v | e]] evs IH]; intros c Hl.
  - by left.
  - apply IH in Hl as [Hl | Hs].
    + unfold cache_fixture in Hl.
      apply lookup_insert_Some in Hl as [[<- <-] | [_ Hl]]; [|by left].
      right. exists fx, kw, v. split_and!; [left | done | done].
    + right. by apply (stored_by_app_r [_]).
  - apply IH in Hl as [Hl | Hs]; [by left|].
    right. by apply (stored_by_app_r [_]).
Qed.

Lemma cache_after_no_store evs c k :
  c !! k = None →
  (∀ fx kw v, EvCall fx kw (Returned v) ∈ evs → Fixture_key fx ≠ k) →
  cache_after evs c !! k = None.
Proof.
  intros Hc Hn. destruct (cache_after evs c !! k) as [entry|] eqn:E; [|done].
  apply cache_after_lookup in E as [E | (fx & kw & v & Hin & Hk & _)].
  - congruence.
  - by apply Hn in Hin.
Qed.

(** ** The cache test *)

Lemma lookup_hit_Some self f c entry :
  lookup_hit self f c = Some entry ↔ cache_hit self f c entry.
Proof.
  unfold lookup_hit, cache_hit, scope_validates.
  destruct (c !! fn_key f) as [e|]; [|by intuition].
  destruct (fn_scope f); try case_bool_decide;
    split; intros Hx; destruct_and?; simplify_eq; auto.
Qed.

Lemma lookup_hit_None self f c :
  lookup_hit self f c = None ↔ ∀ entry, ¬ cache_hit self f c entry.
Proof.
  split.
  - intros Hn entry He. apply lookup_hit_Some in He. congruence.
  - intros Hn. destruct (lookup_hit self f c) as [e|] eqn:E; [|done].
    apply lookup_hit_Some in E. by apply Hn in E.
Qed.

(** ** Runs of the resolution *)

Section Runs.
Context {World : Type}.
Variable call_fn : Func → list (string * PyVal) → World → Outcome * World.
Variable self : Test.

Implicit Types st : RunState World.

Lemma resolve_single_unfold f st :
  _resolve_single_fixture call_fn self f st
  = match lookup_hit self f (cache st) with
    | Some cached_fixture => (Ok cached_fixture, st)
    | None =>
        let fixture :=
          set_last_resolved (Fixture_new f) (id self) (module_name self) in
        if negb (bool_decide (0 < length (fn_params f)))
        then invoke_fixture call_fn fixture [] st
        else
          match resolve_children (_resolve_single_fixture call_fn self)
                  (fn_params f) st with
          | (Raise e, st1) => (Raise e, st1)
          | (Ok children_resolved, st1) =>
              invoke_fixture call_fn fixture
                (_resolve_fixture_values children_resolved) st1
          end
    end.
Proof. destruct f; reflexivity. Qed.

Lemma run_ok_refl st err : run_ok self st err st.
Proof.
  exists []. rewrite app_nil_r. split_and!; [done | done | | done].
  intros fx kw e Hin. by apply elem_of_nil in Hin.
Qed.

Lemma run_ok_seq st st1 st2 err :
  run_ok self st None st1 → run_ok self st1 err st2 → run_ok self st err st2.
Proof.
  intros (evs1 & Ht1 & Hb1 & Hr1 & Hc1) (evs2 & Ht2 & Hb2 & Hr2 & Hc2).
  exists (evs1 ++ evs2). split_and!.
  - by rewrite Ht2, Ht1, app_assoc.
  - by apply Forall_app.
  - intros fx kw e Hin. apply elem_of_app in Hin as [Hin | Hin].
    + by destruct (Hr1 _ _ _ Hin) as [? _].
    + destruct (Hr2 _ _ _ Hin) as [-> Hl]. split; [done|].
      destruct evs2 as [|ev evs2]; [done|].
      by rewrite last_app_cons.
  - by rewrite cache_after_app, <- Hc1.
Qed.

Lemma invoke_fixture_run fixture kwargs st :
  bookkeeping_set self (EvCall fixture kwargs (Returned VNone)) →
  run_ok self st (error_of (invoke_fixture call_fn fixture kwargs st).1)
         (invoke_fixture call_fn fixture kwargs st).2.
Proof.
  intros Hb. unfold invoke_fixture.
  destruct (call_fn (fx_fn fixture) kwargs (world st)) as [out w].
  exists [EvCall fixture kwargs out]. destruct out as [v | e]; simpl.
  - split_and!; [done | by apply Forall_singleton | | done].
    intros fx kw e Hin. apply list_elem_of_singleton in Hin. discriminate.
  - split_and!; [done | by apply Forall_singleton | | done].
    intros fx kw e' Hin. apply list_elem_of_singleton in Hin.
    by simplify_eq.
Qed.

Lemma resolve_children_run rec params :
  (∀ name g, (name, Some (VFunc g)) ∈ params →
      ∀ st, run_ok self st (error_of (rec g st).1) (rec g st).2) →
  ∀ st, run_ok self st (error_of (resolve_children rec params st).1)
               (resolve_children rec params st).2.
Proof.
  induction params as [|[name [child|]] rest IH]; intros Hrec st; simpl.
  - apply run_ok_refl.
  - assert (Hrest : ∀ st, run_ok self st
              (error_of (resolve_children rec rest st).1)
              (resolve_children rec rest st).2).
    { apply IH. intros n g Hin. apply (Hrec n). by right. }
    destruct child as [| | | | |g]; try apply run_ok_refl.
    specialize (Hrec name g (ltac:(left)) st).
    destruct (rec g st) as [[fx | e] st1]; simpl in *; [|done].
    specialize (Hrest st1).
    destruct (resolve_children rec rest st1) as [[l | e] st2];
      simpl in *; by eapply run_ok_seq.
  - apply IH. intros n g Hin. apply (Hrec n). by right.
Qed.

Lemma resolve_single_run f :
  ∀ st, run_ok self st
    (error_of (_resolve_single_fixture call_fn self f st).1)
    (_resolve_single_fixture call_fn self f st).2.
Proof.
  induction f as [f IH] using Func_deps_ind. intros st.
  rewrite resolve_single_unfold.
  destruct (lookup_hit self f (cache st)); [apply run_ok_refl|].
  simpl. destruct (negb _).
  - by apply invoke_fixture_run.
  - pose proof (resolve_children_run _ _ IH st) as Hch.
    destruct (resolve_children _ (fn_params f) st)
      as [[children | e] st1]; simpl in *; [|done].
    eapply run_ok_seq; [done|]. by apply invoke_fixture_run.
Qed.

(** A fixture that [invoke_fixture] returns has just been cached under
    its key, and its invocation is the last entry of the trace. *)
Lemma invoke_fixture_Ok fixture kwargs st fx st' :
  invoke_fixture call_fn fixture kwargs st = (Ok fx, st') →
  fx = stored_fixture fixture kwargs (resolved_val fx)
  ∧ cache st' = cache_fixture (cache st) fx
  ∧ trace st'
    = trace st ++ [EvCall fixture kwargs (Returned (resolved_val fx))].
Proof.
  unfold invoke_fixture.
  destruct (call_fn (fx_fn fixture) kwargs (world st)) as [[v | e] w];
    intros Heq; simplify_eq. done.
Qed.

Lemma resolve_single_returned f st fx st' :
  _resolve_single_fixture call_fn self f st = (Ok fx, st') →
  cache st' !! fn_key f = Some fx.
Proof.
  rewrite resolve_single_unfold.
  destruct (lookup_hit self f (cache st)) as [c|] eqn:Hhit.
  - intros Heq. simplify_eq. by apply lookup_hit_Some in Hhit as [? _].
  - simpl. intros Heq.
    assert (∃ kwargs st1, invoke_fixture call_fn
              (set_last_resolved (Fixture_new f) (id self) (module_name self))
              kwargs st1 = (Ok fx, st')) as (kw & st1 & Hinv).
    { destruct (negb _); [by eauto|].
      destruct (resolve_children _ _ st) as [[ch | e] st1]; [by eauto|done]. }
    apply invoke_fixture_Ok in Hinv as (Hfx & -> & _).
    unfold cache_fixture. rewrite Hfx at 1. apply lookup_insert_eq.
Qed.

Lemma resolve_argument_run arg :
  ∀ st, run_ok self st (error_of (resolve_argument call_fn self arg st).1)
               (resolve_argument call_fn self arg st).2.
Proof.
  intros st. destruct arg as [| | | | |f]; try apply run_ok_refl.
  unfold resolve_argument.
  destruct (is_fixture_arg (VFunc f)); [|apply run_ok_refl].
  pose proof (resolve_single_run f st) as Hf.
  by destruct (_resolve_single_fixture call_fn self f st) as [[fx | e] st1].
Qed.

Lemma resolve_items_run iteration items :
  ∀ st, run_ok self st
    (error_of (resolve_items call_fn self iteration items st).1)
    (resolve_items call_fn self iteration items st).2.
Proof.
  induction items as [|[name arg] rest IH]; intros st; simpl.
  - apply run_ok_refl.
  - destruct (if isinstance_Each arg then _ else _) as [arg' | e];
      [|apply run_ok_refl].
    pose proof (resolve_argument_run arg' st) as Hone.
    destruct (resolve_argument call_fn self arg' st)
      as [[r | e] st1]; simpl in *; [|done].
    specialize (IH st1).
    destruct (resolve_items call_fn self iteration rest st1)
      as [[l | e] st2]; simpl in *; by eapply run_ok_seq.
Qed.

Lemma resolve_args_run iteration st :
  run_ok self st (error_of (resolve_args call_fn self iteration st).1)
         (resolve_args call_fn self iteration st).2.
Proof.
  unfold resolve_args. destruct (negb _); [apply run_ok_refl|].
  apply resolve_items_run.
Qed.
End Runs.

(** ** Argument resolution *)

Section Arguments_resolved.
Context {World : Type}.
Variable call_fn : Func → list (string * PyVal) → World → Outcome * World.
Variable self : Test.

Implicit Types st : RunState World.

Lemma resolves_to_weaken c evs1 evs2 iteration item out :
  resolves_to (cache_after evs1 c) evs2 iteration item out →
  resolves_to c (evs1 ++ evs2) iteration item out.
Proof.
  intros [Hn (arg & Hs & Hr)]. split; [done|]. exists arg. split; [done|].
  destruct (is_fixture_arg arg); [|done].
  destruct Hr as (fx & -> & Hfx). exists fx. split; [done|].
  destruct arg; try done. simpl in *. destruct Hfx as [Hl | Hst].
  - apply cache_after_lookup in Hl as [? | ?]; [by left|].
    right. by apply stored_by_app_l.
  - right. by apply stored_by_app_r.
Qed.

Lemma resolve_argument_Ok arg st r st' :
  resolve_argument call_fn self arg st = (Ok r, st') →
  if is_fixture_arg arg
  then ∃ fx, r = RFixture fx
             ∧ match arg with
               | VFunc f => cache st' !! fn_key f = Some fx
               | _ => False
               end
  else r = RValue arg ∧ st' = st.
Proof.
  destruct arg as [| | | | |f]; simpl; try (intros; by simplify_eq).
  destruct (match fn_meta f with Some m => is_fixture m | None => false end).
  - destruct (_resolve_single_fixture call_fn self f st)
      as [[fx | e] st1] eqn:E; intros; simplify_eq.
    exists fx. split; [done|]. by eapply resolve_single_returned.
  - intros; by simplify_eq.
Qed.

Lemma resolve_items_resolves iteration items :
  ∀ st resolved st',
    resolve_items call_fn self iteration items st = (Ok resolved, st') →
    ∃ evs, trace st' = trace st ++ evs
           ∧ cache st' = cache_after evs (cache st)
           ∧ Forall2 (resolves_to (cache st) evs iteration) items resolved.
Proof.
  induction items as [|[name arg] rest IH]; intros st resolved st'; simpl.
  - intros; simplify_eq. exists []. by rewrite app_nil_r.
  - destruct (if isinstance_Each arg then _ else _) as [arg' | e] eqn:Hsub;
      [|done].
    pose proof (resolve_argument_run call_fn self arg' st) as Hrun.
    destruct (resolve_argument call_fn self arg' st)
      as [[r | e] st1] eqn:Hone; [|done].
    destruct (resolve_items call_fn self iteration rest st1)
      as [[l | e] st2] eqn:Hrest; [|done].
    intros; simplify_eq.
    destruct Hrun as (evs1 & Ht1 & _ & _ & Hc1). simpl in *.
    destruct (IH _ _ _ Hrest) as (evs2 & Ht2 & Hc2 & Hall).
    exists (evs1 ++ evs2). split_and!.
    + by rewrite Ht2, Ht1, app_assoc.
    + by rewrite cache_after_app, <- Hc1.
    + constructor.
      * split; [done|]. exists arg'. split; [done|].
        apply resolve_argument_Ok in Hone.
        destruct (is_fixture_arg arg'); [|by destruct Hone].
        destruct Hone as (fx & -> & Hfx). exists fx. split; [done|].
        destruct arg'; try done. simpl. rewrite Hc1 in Hfx.
        apply cache_after_lookup in Hfx as [? | ?]; [by left|].
        right. by apply stored_by_app_l.
      * eapply Forall2_impl; [exact Hall|]. intros item out Hr.
        apply resolves_to_weaken. by rewrite <- Hc1.
Qed.

Lemma resolve_items_app iteration pre post st :
  resolve_items call_fn self iteration (pre ++ post) st
  = match resolve_items call_fn self iteration pre st with
    | (Raise e, st1) => (Raise e, st1)
    | (Ok resolved_pre, st1) =>
        match resolve_items call_fn self iteration post st1 with
        | (Raise e, st2) => (Raise e, st2)
        | (Ok resolved_post, st2) => (Ok (resolved_pre ++ resolved_post), st2)
        end
    end.
Proof.
  revert st. induction pre as [|[name arg] pre IH]; intros st; simpl.
  - by destruct (resolve_items call_fn self iteration post st) as [[?|?] ?].
  - destruct (if isinstance_Each arg then _ else _) as [arg' | e]; [|done].
    destruct (resolve_argument call_fn self arg' st) as [[r | e] st1];
      [|done].
    rewrite IH.
    destruct (resolve_items call_fn self iteration pre st1)
      as [[l | e] st2]; [|done].
    by destruct (resolve_items call_fn self iteration post st2)
      as [[l' | e] st3].
Qed.
End Arguments_resolved.

Lemma default_arguments_nonempty self :
  _get_default_args self ≠ [] → has_deps self = true.
Proof.
  unfold _get_default_args, has_deps, deps, default_arguments.
  destruct (fn_params (fn self)); [done|]. intros _.
  apply bool_decide_eq_true. simpl. lia.
Qed.

Lemma tuple_getitem_out_of_range args (i : Z) :
  (Z.of_nat (length args) ≤ i)%Z → tuple_getitem args i = Raise IndexError.
Proof.
  intros Hi. unfold tuple_getitem.
  destruct (i <? 0)%Z eqn:E; [lia|].
  replace (i <? Z.of_nat (length args))%Z with false by lia.
  by rewrite andb_false_r.
Qed.

(** ** What [resolve_args] returns *)

(** C1 as stated fails: for a test with the fixture argument [db] and the
    literal argument [limit], [resolve_args] maps [db] to the [Fixture]
    object, not to the value [("db",)] its factory produced. *)
Lemma C1_fixture_wrapper_returned :
  (resolve_args sample_call test_query 0 fresh_run).1
  = Ok [("db", RFixture (stored_fixture (pending test_query fix_db) []
                           (VTuple [VStr "db"])));
        ("limit", RValue (VInt 5))]
  ∧ (resolve_args sample_call test_query 0 fresh_run).1
    ≠ Ok [("db", RValue (VTuple [VStr "db"])); ("limit", RValue (VInt 5))].
Proof. split; [reflexivity | discriminate]. Qed.

(** C1, amended.  When [resolve_args] returns, its result lists the
    default-bound arguments by name, in order.  An argument that (after
    the [Each] substitution) is a fixture function is mapped to a
    [Fixture] wrapper: the entry the cache held under the key of that
    function before the call, or the wrapper cached for an invocation of
    that key that returned during the call, whose [resolved_val] is the
    value returned.  Any other argument is mapped to its value unchanged
    (for an [Each], its element at the iteration index). *)
Theorem C1_resolve_args_mapping
    {World : Type}
    (call_fn : Func → list (string * PyVal) → World → Outcome * World)
    (self : Test) (iteration : Z) (st st' : RunState World)
    (resolved_args : list (string * Resolved)) :
  resolve_args call_fn self iteration st = (Ok resolved_args, st') →
  ∃ evs,
    trace st' = trace st ++ evs
    ∧ Forall2 (resolves_to (cache st) evs iteration)
              (_get_default_args self) resolved_args.
Proof.
  unfold resolve_args. destruct (negb (has_deps self)) eqn:Hd.
  - intros; simplify_eq. exists []. rewrite app_nil_r. split; [done|].
    unfold _get_default_args, has_deps, deps in *.
    destruct (fn_params (fn self)); [constructor|].
    apply negb_true_iff, bool_decide_eq_false in Hd. simpl in Hd. lia.
  - intros Hres. apply resolve_items_resolves in Hres as (evs & ? & _ & ?).
    by exists evs.
Qed.

(** The amended C1 at the test above. *)
Lemma C1_resolve_args_mapping_witness :
  ∃ evs,
    trace (resolve_args sample_call test_query 0 fresh_run).2
    = trace fresh_run ++ evs
    ∧ Forall2 (resolves_to (cache fresh_run) evs 0)
              (_get_default_args test_query)
              [("db", RFixture (stored_fixture (pending test_query fix_db) []
                                  (VTuple [VStr "db"])));
               ("limit", RValue (VInt 5))].
Proof.
  apply (C1_resolve_args_mapping sample_call test_query 0 fresh_run).
  reflexivity.
Defined.

(** ** Cache hits and misses *)

(** C2 as stated fails: the module-scoped fixture [settings] was
    resolved for a test of module [m1]; a test of module [m2] asks for it,
    which is a miss, and the factory raises.  The entry stored under the
    key is not overwritten, it is still the one of [m1]. *)
Lemma C2_stale_entry_not_overwritten :
  cache run_after_m1 !! fn_key fix_settings
  = Some (stored_fixture (pending test_in_m1 fix_settings) []
            (VTuple [VStr "settings"]))
  ∧ ¬ cache_hit test_in_m2 fix_settings (cache run_after_m1)
        (stored_fixture (pending test_in_m1 fix_settings) []
           (VTuple [VStr "settings"]))
  ∧ (_resolve_single_fixture sample_call test_in_m2 fix_settings
       run_after_m1).1
    = Raise (FixtureError "Unable to resolve fixture 'settings'"
                          (Exc "RuntimeError" "gone"))
  ∧ trace (_resolve_single_fixture sample_call test_in_m2 fix_settings
             run_after_m1).2
    = trace run_after_m1
      ++ [EvCall (pending test_in_m2 fix_settings) []
                 (Raised (Exc "RuntimeError" "gone"))]
  ∧ cache (_resolve_single_fixture sample_call test_in_m2 fix_settings
             run_after_m1).2 !! fn_key fix_settings
    = Some (stored_fixture (pending test_in_m1 fix_settings) []
              (VTuple [VStr "settings"])).
Proof.
  split; [reflexivity|]. split; [|repeat split; reflexivity].
  intros [_ Hscope]. simpl in Hscope. discriminate.
Qed.

(** C2, amended.  If the cache holds an entry under the key of the
    factory and the scope rule validates (Global: always; Module: the
    module name of the requesting test is the one recorded in the entry;
    Test: the identifier of the requesting test is the one recorded), the
    entry is returned and nothing changes: no invocation, same cache.
    Otherwise, when the resolution returns a [Fixture], that fixture is a
    new wrapper made for the requesting test, the invocation of the
    factory is the last thing the resolution did, and the fixture is the
    entry now stored under the key. *)
Theorem C2_cache_hit_or_refresh
    {World : Type}
    (call_fn : Func → list (string * PyVal) → World → Outcome * World)
    (self : Test) (fixture_fn : Func) (st : RunState World) :
  (∀ entry,
      cache_hit self fixture_fn (cache st) entry →
      _resolve_single_fixture call_fn self fixture_fn st = (Ok entry, st))
  ∧ ((∀ entry, ¬ cache_hit self fixture_fn (cache st) entry) →
     ∀ fixture st',
       _resolve_single_fixture call_fn self fixture_fn st = (Ok fixture, st') →
       cache st' !! fn_key fixture_fn = Some fixture
       ∧ ∃ kwargs,
           fixture = stored_fixture (pending self fixture_fn) kwargs
                                    (resolved_val fixture)
           ∧ last (trace st')
             = Some (EvCall (pending self fixture_fn) kwargs
                            (Returned (resolved_val fixture)))).
Proof.
  split.
  - intros entry Hhit. apply lookup_hit_Some in Hhit.
    by rewrite resolve_single_unfold, Hhit.
  - intros Hmiss fixture st' Hres.
    split; [by eapply resolve_single_returned|].
    apply lookup_hit_None in Hmiss.
    rewrite resolve_single_unfold, Hmiss in Hres. simpl in Hres.
    assert (∃ kwargs st1, invoke_fixture call_fn (pending self fixture_fn)
              kwargs st1 = (Ok fixture, st')) as (kw & st1 & Hinv).
    { destruct (negb _); [by eauto|].
      destruct (resolve_children _ _ st) as [[ch | e] st1]; [by eauto|done]. }
    apply invoke_fixture_Ok in Hinv as (Hfx & _ & Htr).
    exists kw. split; [done|]. by rewrite Htr, last_snoc.
Qed.

(** The amended C2 on a hit (the test of [m1] asking again) and on a
    miss (the same test on an empty cache). *)
Lemma C2_cache_hit_or_refresh_witness :
  (_resolve_single_fixture sample_call test_in_m1 fix_settings run_after_m1
   = (Ok (stored_fixture (pending test_in_m1 fix_settings) []
            (VTuple [VStr "settings"])), run_after_m1))
  ∧ (cache (_resolve_single_fixture sample_call test_in_m1 fix_settings
              fresh_run).2 !! fn_key fix_settings
     = Some (stored_fixture (pending test_in_m1 fix_settings) []
               (VTuple [VStr "settings"]))).
Proof.
  split.
  - apply (proj1 (C2_cache_hit_or_refresh sample_call test_in_m1 fix_settings
                    run_after_m1)).
    split; reflexivity.
  - apply (proj2 (C2_cache_hit_or_refresh sample_call test_in_m1 fix_settings
                    fresh_run)) with (st' := run_after_m1).
    + intros entry [Hl _]. discriminate.
    + reflexivity.
Defined.

(** ** A factory that raises *)

(** C3 as stated fails: the test-scoped fixture [flaky] was resolved for
    a first test; for a second test it is resolved again and its factory
    raises.  [resolve_args] raises the [FixtureError], and the cache
    still holds, under the key of [flaky], the entry successfully
    resolved for the first test. *)
Lemma C3_earlier_entry_survives_failure :
  cache run_after_first !! fn_key fix_flaky
  = Some (stored_fixture (pending test_first fix_flaky) []
            (VTuple [VStr "flaky"]))
  ∧ trace (resolve_args sample_call test_second 0 run_after_first).2
    = trace run_after_first
      ++ [EvCall (pending test_second fix_flaky) []
                 (Raised (Exc "RuntimeError" "gone"))]
  ∧ (resolve_args sample_call test_second 0 run_after_first).1
    = Raise (FixtureError "Unable to resolve fixture 'flaky'"
                          (Exc "RuntimeError" "gone"))
  ∧ cache (resolve_args sample_call test_second 0 run_after_first).2
      !! fn_key fix_flaky
    = Some (stored_fixture (pending test_first fix_flaky) []
              (VTuple [VStr "flaky"])).
Proof. repeat split; reflexivity. Qed.

(** C3, amended.  If an invocation of a fixture function made during
    [resolve_args] raises [e] and [e] is an instance of [Exception], then
    [resolve_args] raises the [FixtureError] of that fixture with cause
    [e]; an exception outside [Exception], which [except Exception] does
    not catch, leaves [resolve_args] as it is, unwrapped.  In both cases
    the invocation is the last one of the call, and nothing is cached for
    it: the cache afterwards is the cache from before the call with the
    fixtures of the invocations that returned stored into it.  So the key
    of the failed factory has no entry afterwards if it had none before
    and no other invocation stored one under it. *)
Theorem C3_failed_factory
    {World : Type}
    (call_fn : Func → list (string * PyVal) → World → Outcome * World)
    (self : Test) (iteration : Z) (st : RunState World)
    (evs : list Event) (fixture : Fixture) (kwargs : list (string * PyVal))
    (e : PyExc) :
  trace (resolve_args call_fn self iteration st).2 = trace st ++ evs →
  EvCall fixture kwargs (Raised e) ∈ evs →
  (is_Exception e = true →
   (resolve_args call_fn self iteration st).1
   = Raise (FixtureError (fixture_error_message fixture) e))
  ∧ (is_Exception e = false →
     (resolve_args call_fn self iteration st).1 = Raise (Uncaught e))
  ∧ last evs = Some (EvCall fixture kwargs (Raised e))
  ∧ cache (resolve_args call_fn self iteration st).2
    = cache_after evs (cache st)
  ∧ (cache st !! Fixture_key fixture = None →
     (∀ fx kw v, EvCall fx kw (Returned v) ∈ evs →
                 Fixture_key fx ≠ Fixture_key fixture) →
     cache (resolve_args call_fn self iteration st).2
       !! Fixture_key fixture = None).
Proof.
  intros Htr Hin.
  destruct (resolve_args_run call_fn self iteration st)
    as (evs' & Htr' & _ & Hraise & Hcache).
  rewrite Htr' in Htr. apply app_inv_head in Htr as ->.
  destruct (Hraise _ _ _ Hin) as [Herr Hlast].
  assert (Hres : (resolve_args call_fn self iteration st).1
                 = Raise (raised_error fixture e)).
  { destruct (resolve_args call_fn self iteration st).1; simpl in Herr;
      by simplify_eq. }
  unfold raised_error in Hres. split_and!; [| |done|done|].
  - intros He. by rewrite He in Hres.
  - intros He. by rewrite He in Hres.
  - intros Hnone Hother. rewrite Hcache. by apply cache_after_no_store.
Qed.

(** The amended C3 at a test whose first argument is a fixture that
    always raises a [RuntimeError], on an empty cache. *)
Lemma C3_failed_factory_witness :
  (resolve_args sample_call test_broken_each 0 fresh_run).1
  = Raise (FixtureError
             (fixture_error_message (pending test_broken_each fix_broken))
             (Exc "RuntimeError" "no database"))
  ∧ last [EvCall (pending test_broken_each fix_broken) []
                 (Raised (Exc "RuntimeError" "no database"))]
    = Some (EvCall (pending test_broken_each fix_broken) []
                   (Raised (Exc "RuntimeError" "no database")))
  ∧ cache (resolve_args sample_call test_broken_each 0 fresh_run).2
    = cache_after [EvCall (pending test_broken_each fix_broken) []
                          (Raised (Exc "RuntimeError" "no database"))]
                  (cache fresh_run)
  ∧ cache (resolve_args sample_call test_broken_each 0 fresh_run).2
      !! Fixture_key (pending test_broken_each fix_broken) = None.
Proof.
  destruct (C3_failed_factory sample_call test_broken_each 0 fresh_run
              [EvCall (pending test_broken_each fix_broken) []
                      (Raised (Exc "RuntimeError" "no database"))]
              (pending test_broken_each fix_broken) []
              (Exc "RuntimeError" "no database"))
    as (Hwrapped & _ & Hlast & Hcache & Hnone).
  - reflexivity.
  - left.
  - split_and!; [by apply Hwrapped | done | done |].
    apply Hnone; [reflexivity|].
    intros fx kw v Hin. apply list_elem_of_singleton in Hin. discriminate.
Defined.

(** A [KeyboardInterrupt] raised by a fixture function is not an
    [Exception]: it leaves [resolve_args] unwrapped, and nothing is
    cached. *)
Example keyboard_interrupt_not_wrapped :
  (resolve_args interrupted_call test_query 0 fresh_run).1
  = Raise (Uncaught (BaseExc "KeyboardInterrupt" ""))
  ∧ trace (resolve_args interrupted_call test_query 0 fresh_run).2
    = [EvCall (pending test_query fix_db) []
              (Raised (BaseExc "KeyboardInterrupt" ""))]
  ∧ cache (resolve_args interrupted_call test_query 0 fresh_run).2 = ∅.
Proof. repeat split; reflexivity. Qed.

(** ** Bookkeeping on a cache miss *)

Section Miss.
Context {World : Type}.
Variable call_fn : Func → list (string * PyVal) → World → Outcome * World.
Variable self : Test.

Implicit Types st : RunState World.

Lemma invoke_fixture_trace fixture kwargs st :
  trace (invoke_fixture call_fn fixture kwargs st).2
  = trace st
    ++ [EvCall fixture kwargs (call_fn (fx_fn fixture) kwargs (world st)).1].
Proof.
  unfold invoke_fixture.
  by destruct (call_fn (fx_fn fixture) kwargs (world st)) as [[v | e] w].
Qed.

(** On a miss the resolution is: the dependencies, then the invocation
    on behalf of the pending fixture. *)
Lemma resolve_single_miss f st :
  (∀ entry, ¬ cache_hit self f (cache st) entry) →
  _resolve_single_fixture call_fn self f st
  = match resolve_children (_resolve_single_fixture call_fn self)
            (fn_params f) st with
    | (Raise e, st1) => (Raise e, st1)
    | (Ok children_resolved, st1) =>
        invoke_fixture call_fn (pending self f)
          (_resolve_fixture_values children_resolved) st1
    end.
Proof.
  intros Hmiss. apply lookup_hit_None in Hmiss.
  rewrite resolve_single_unfold, Hmiss. simpl.
  destruct (negb _) eqn:Hdeps; [|done].
  apply negb_true_iff, bool_decide_eq_false in Hdeps.
  destruct (fn_params f); [done | simpl in Hdeps; lia].
Qed.
End Miss.

(** C7.  On a cache miss the [Fixture] made for the factory gets
    [last_resolved_test_id] and [last_resolved_module_name] of the
    requesting test before the factory is invoked.  Once the dependencies
    of the factory are resolved, the factory is invoked, as the last
    thing the resolution does, on behalf of a [Fixture] of that factory
    that already carries the two fields while its [resolved_val] is
    still unset; if a dependency raises, that error is raised and the
    factory is not invoked.  Every invocation the resolution
    makes for a dependency is made on a [Fixture] in that same state.  A
    [Fixture] that the resolution returns is one of the factory, carries
    the two fields, and is the entry cached under the key. *)
Theorem C7_bookkeeping_before_invocation
    {World : Type}
    (call_fn : Func → list (string * PyVal) → World → Outcome * World)
    (self : Test) (fixture_fn : Func) (st : RunState World) :
  (∀ entry, ¬ cache_hit self fixture_fn (cache st) entry) →
  (∀ children st1,
     resolve_children (_resolve_single_fixture call_fn self)
       (fn_params fixture_fn) st = (Ok children, st1) →
     ∃ fixture,
       fx_fn fixture = fixture_fn
       ∧ last_resolved_test_id fixture = Some (id self)
       ∧ last_resolved_module_name fixture = Some (module_name self)
       ∧ resolved_val fixture = VNone
       ∧ trace (_resolve_single_fixture call_fn self fixture_fn st).2
         = trace st1
           ++ [EvCall fixture (_resolve_fixture_values children)
                 (call_fn fixture_fn (_resolve_fixture_values children)
                    (world st1)).1])
  ∧ (∀ e st1,
       resolve_children (_resolve_single_fixture call_fn self)
         (fn_params fixture_fn) st = (Raise e, st1) →
       _resolve_single_fixture call_fn self fixture_fn st = (Raise e, st1))
  ∧ (∃ evs,
       trace (_resolve_single_fixture call_fn self fixture_fn st).2
       = trace st ++ evs
       ∧ ∀ fixture kwargs out,
           EvCall fixture kwargs out ∈ evs →
           last_resolved_test_id fixture = Some (id self)
           ∧ last_resolved_module_name fixture = Some (module_name self)
           ∧ resolved_val fixture = VNone)
  ∧ (∀ fixture,
       (_resolve_single_fixture call_fn self fixture_fn st).1 = Ok fixture →
       fx_fn fixture = fixture_fn
       ∧ last_resolved_test_id fixture = Some (id self)
       ∧ last_resolved_module_name fixture = Some (module_name self)
       ∧ cache (_resolve_single_fixture call_fn self fixture_fn st).2
           !! fn_key fixture_fn = Some fixture).
Proof.
  intros Hmiss. split_and!.
  - intros children st1 Hch. exists (pending self fixture_fn).
    split_and!; try done.
    rewrite (resolve_single_miss call_fn self fixture_fn st Hmiss), Hch.
    apply invoke_fixture_trace.
  - intros e st1 Hch.
    by rewrite (resolve_single_miss call_fn self fixture_fn st Hmiss), Hch.
  - destruct (resolve_single_run call_fn self fixture_fn st)
      as (evs & Htr & Hbook & _).
    exists evs. split; [done|]. intros fixture kwargs out Hin.
    rewrite Forall_forall in Hbook. specialize (Hbook _ Hin).
    simpl in Hbook. by rewrite Hbook.
  - intros fixture Hok.
    destruct (_resolve_single_fixture call_fn self fixture_fn st)
      as [r st'] eqn:Hres. simpl in Hok. subst r.
    split_and!; [| | |by eapply resolve_single_returned].
    all: rewrite (resolve_single_miss call_fn self fixture_fn st Hmiss)
           in Hres.
    all: destruct (resolve_children _ (fn_params fixture_fn) st)
           as [[ch | e] st1]; [|done].
    all: by apply invoke_fixture_Ok in Hres as (-> & _ & _).
Qed.

(** C7 at the head of the chain, asked for by [test_chain] on an empty
    cache. *)
Lemma C7_bookkeeping_before_invocation_witness :
  (∀ children st1,
     resolve_children (_resolve_single_fixture sample_call test_chain)
       (fn_params fix_a) fresh_run = (Ok children, st1) →
     ∃ fixture,
       fx_fn fixture = fix_a
       ∧ last_resolved_test_id fixture = Some (id test_chain)
       ∧ last_resolved_module_name fixture = Some (module_name test_chain)
       ∧ resolved_val fixture = VNone
       ∧ trace (_resolve_single_fixture sample_call test_chain fix_a
                  fresh_run).2
         = trace st1
           ++ [EvCall fixture (_resolve_fixture_values children)
                 (sample_call fix_a (_resolve_fixture_values children)
                    (world st1)).1])
  ∧ (∀ e st1,
       resolve_children (_resolve_single_fixture sample_call test_chain)
         (fn_params fix_a) fresh_run = (Raise e, st1) →
       _resolve_single_fixture sample_call test_chain fix_a fresh_run
       = (Raise e, st1))
  ∧ (∃ evs,
       trace (_resolve_single_fixture sample_call test_chain fix_a
                fresh_run).2
       = trace fresh_run ++ evs
       ∧ ∀ fixture kwargs out,
           EvCall fixture kwargs out ∈ evs →
           last_resolved_test_id fixture = Some (id test_chain)
           ∧ last_resolved_module_name fixture
             = Some (module_name test_chain)
           ∧ resolved_val fixture = VNone)
  ∧ (∀ fixture,
       (_resolve_single_fixture sample_call test_chain fix_a fresh_run).1
       = Ok fixture →
       fx_fn fixture = fix_a
       ∧ last_resolved_test_id fixture = Some (id test_chain)
       ∧ last_resolved_module_name fixture = Some (module_name test_chain)
       ∧ cache (_resolve_single_fixture sample_call test_chain fix_a
                  fresh_run).2 !! fn_key fix_a = Some fixture).
Proof.
  apply (C7_bookkeeping_before_invocation sample_call test_chain fix_a
           fresh_run).
  intros entry [Hl _]. discriminate.
Defined.

(** ** Iteration index out of range *)

(** C10 as stated fails: the test has the [Each] argument [n] of length
    2 and is resolved with iteration 2, but its first argument is a
    fixture whose factory raises, and what [resolve_args] raises is that
    [FixtureError]. *)
Lemma C10_fixture_error_comes_first :
  ("n", VEach [VInt 1; VInt 2]) ∈ _get_default_args test_broken_each
  ∧ (Z.of_nat (length [VInt 1; VInt 2]) ≤ 2)%Z
  ∧ (resolve_args sample_call test_broken_each 2 fresh_run).1
    = Raise (FixtureError "Unable to resolve fixture 'broken'"
                          (Exc "RuntimeError" "no database"))
  ∧ (resolve_args sample_call test_broken_each 2 fresh_run).1
    ≠ Raise IndexError.
Proof.
  split; [right; left|]. split; [simpl; lia|].
  split; [reflexivity | discriminate].
Qed.

(** C10, amended.  [resolve_args] makes no bounds check: for an [Each]
    default argument of length [n] and an iteration index of at least
    [n], once the arguments before it in the signature have been resolved
    without raising, the call raises [IndexError]; if one of those raises,
    the call raises that error instead.  In no case does it return. *)
Theorem C10_index_error
    {World : Type}
    (call_fn : Func → list (string * PyVal) → World → Outcome * World)
    (self : Test) (iteration : Z) (st : RunState World)
    (pre post : list (string * PyVal)) (name : string) (args : list PyVal) :
  _get_default_args self = pre ++ (name, VEach args) :: post →
  (Z.of_nat (length args) ≤ iteration)%Z →
  resolve_args call_fn self iteration st
  = match resolve_items call_fn self iteration pre st with
    | (Ok _, st1) => (Raise IndexError, st1)
    | (Raise e, st1) => (Raise e, st1)
    end.
Proof.
  intros Hargs Hrange. unfold resolve_args.
  rewrite default_arguments_nonempty by (rewrite Hargs; by destruct pre).
  simpl. rewrite Hargs, resolve_items_app.
  destruct (resolve_items call_fn self iteration pre st) as [[l | e] st1];
    [|done].
  simpl. by rewrite tuple_getitem_out_of_range.
Qed.

(** The amended C10 at a test with a literal argument followed by an
    [Each] of length 2, at iteration 2. *)
Lemma C10_index_error_witness :
  resolve_args sample_call test_each 2 fresh_run
  = match resolve_items sample_call test_each 2
            [("limit", VInt 5)] fresh_run with
    | (Ok _, st1) => (Raise IndexError, st1)
    | (Raise e, st1) => (Raise e, st1)
    end.
Proof.
  apply (C10_index_error sample_call test_each 2 fresh_run
           [("limit", VInt 5)] [] "n" [VInt 1; VInt 2]).
  - reflexivity.
  - simpl. lia.
Defined.

(** ** A chain of fixtures *)

Section Chain.
Context {World : Type}.
Variable call_fn : Func → list (string * PyVal) → World → Outcome * World.
Variable self : Test.

Implicit Types st : RunState World.

Lemma resolve_single_miss_leaf f st :
  fn_params f = [] →
  (∀ entry, ¬ cache_hit self f (cache st) entry) →
  _resolve_single_fixture call_fn self f st
  = invoke_fixture call_fn (pending self f) [] st.
Proof.
  intros Hp Hmiss. apply lookup_hit_None in Hmiss.
  by rewrite resolve_single_unfold, Hmiss, Hp.
Qed.

Lemma resolve_single_miss_one_dep f name g st :
  fn_params f = [(name, Some (VFunc g))] →
  (∀ entry, ¬ cache_hit self f (cache st) entry) →
  _resolve_single_fixture call_fn self f st
  = match _resolve_single_fixture call_fn self g st with
    | (Raise e, st1) => (Raise e, st1)
    | (Ok child, st1) =>
        invoke_fixture call_fn (pending self f)
          [(name, resolved_val child)] st1
    end.
Proof.
  intros Hp Hmiss. apply lookup_hit_None in Hmiss.
  rewrite resolve_single_unfold, Hmiss, Hp. simpl.
  by destruct (_resolve_single_fixture call_fn self g st) as [[fx | e] st1].
Qed.
End Chain.

(** C8.  For a test whose argument is the fixture [a], where [a] depends
    on [b], [b] on [c] and [c] on nothing, the three having keys of their
    own: a call of [resolve_args] that resolves [a] anew (none of the
    three is taken from the cache) and returns has invoked [c], then [b]
    with the value of [c], then [a] with the value of [b], and leaves in
    the cache the fixture of each of the three under its own key. *)
Theorem C8_chain_resolution
    {World : Type}
    (call_fn : Func → list (string * PyVal) → World → Outcome * World)
    (self : Test) (a b c : Func) (x name_b name_c : string)
    (iteration : Z) (st st' : RunState World)
    (resolved_args : list (string * Resolved)) :
  fn_params (fn self) = [(x, Some (VFunc a))] →
  is_fixture_arg (VFunc a) = true →
  fn_params a = [(name_b, Some (VFunc b))] →
  fn_params b = [(name_c, Some (VFunc c))] →
  fn_params c = [] →
  fn_key a ≠ fn_key b → fn_key b ≠ fn_key c → fn_key a ≠ fn_key c →
  (∀ entry, ¬ cache_hit self a (cache st) entry) →
  (∀ entry, ¬ cache_hit self b (cache st) entry) →
  (∀ entry, ¬ cache_hit self c (cache st) entry) →
  resolve_args call_fn self iteration st = (Ok resolved_args, st') →
  ∃ va vb vc,
    trace st'
    = trace st
      ++ [EvCall (pending self c) [] (Returned vc);
          EvCall (pending self b) [(name_c, vc)] (Returned vb);
          EvCall (pending self a) [(name_b, vb)] (Returned va)]
    ∧ cache st' !! fn_key c = Some (stored_fixture (pending self c) [] vc)
    ∧ cache st' !! fn_key b
      = Some (stored_fixture (pending self b) [(name_c, vc)] vb)
    ∧ cache st' !! fn_key a
      = Some (stored_fixture (pending self a) [(name_b, vb)] va)
    ∧ resolved_args
      = [(x, RFixture (stored_fixture (pending self a) [(name_b, vb)] va))].
Proof.
  intros Hself Hfix Ha Hb Hc Hab Hbc Hac Hma Hmb Hmc.
  unfold resolve_args, has_deps, deps, _get_default_args. rewrite Hself.
  simpl in *. rewrite Hfix.
  rewrite (resolve_single_miss_one_dep _ _ _ _ _ _ Ha Hma).
  rewrite (resolve_single_miss_one_dep _ _ _ _ _ _ Hb Hmb).
  rewrite (resolve_single_miss_leaf _ _ _ _ Hc Hmc).
  destruct (invoke_fixture call_fn (pending self c) [] st)
    as [[fc | e] stc] eqn:Ec; [|done].
  apply invoke_fixture_Ok in Ec as (Hfc & Hcc & Htc).
  destruct (invoke_fixture call_fn (pending self b) _ stc)
    as [[fb | e] stb] eqn:Eb; [|done].
  apply invoke_fixture_Ok in Eb as (Hfb & Hcb & Htb).
  destruct (invoke_fixture call_fn (pending self a) _ stb)
    as [[fa | e] sta] eqn:Ea; [|done].
  apply invoke_fixture_Ok in Ea as (Hfa & Hca & Hta).
  intros Heq. simplify_eq.
  exists (resolved_val fa), (resolved_val fb), (resolved_val fc).
  rewrite <- Hfa, <- Hfb, <- Hfc.
  assert (Hka : Fixture_key fa = fn_key a) by (by rewrite Hfa).
  assert (Hkb : Fixture_key fb = fn_key b) by (by rewrite Hfb).
  assert (Hkc : Fixture_key fc = fn_key c) by (by rewrite Hfc).
  split_and!; [| | | |done].
  - rewrite Hta, Htb, Htc, <- !app_assoc. done.
  - rewrite Hca, Hcb, Hcc. unfold cache_fixture. rewrite Hka, Hkb, Hkc.
    rewrite lookup_insert_ne by done. rewrite lookup_insert_ne by done.
    apply lookup_insert_eq.
  - rewrite Hca, Hcb. unfold cache_fixture. rewrite Hka, Hkb.
    rewrite lookup_insert_ne by done. apply lookup_insert_eq.
  - rewrite Hca. unfold cache_fixture. rewrite Hka. apply lookup_insert_eq.
Qed.

(** C8 at the chain [fix_a], [fix_b], [fix_c] on an empty cache. *)
Lemma C8_chain_resolution_witness :
  ∃ va vb vc,
    trace (resolve_args sample_call test_chain 0 fresh_run).2
    = trace fresh_run
      ++ [EvCall (pending test_chain fix_c) [] (Returned vc);
          EvCall (pending test_chain fix_b) [("c", vc)] (Returned vb);
          EvCall (pending test_chain fix_a) [("b", vb)] (Returned va)]
    ∧ cache (resolve_args sample_call test_chain 0 fresh_run).2
        !! fn_key fix_c
      = Some (stored_fixture (pending test_chain fix_c) [] vc)
    ∧ cache (resolve_args sample_call test_chain 0 fresh_run).2
        !! fn_key fix_b
      = Some (stored_fixture (pending test_chain fix_b) [("c", vc)] vb)
    ∧ cache (resolve_args sample_call test_chain 0 fresh_run).2
        !! fn_key fix_a
      = Some (stored_fixture (pending test_chain fix_a) [("b", vb)] va)
    ∧ [("a", RFixture
               (stored_fixture (pending test_chain fix_a)
                  [("b", VTuple [VStr "b"; VTuple [VStr "c"]])]
                  (VTuple [VStr "a"; VTuple [VStr "b"; VTuple [VStr "c"]]])))]
      = [("a", RFixture
                 (stored_fixture (pending test_chain fix_a) [("b", vb)] va))].
Proof.
  apply (C8_chain_resolution sample_call test_chain fix_a fix_b fix_c
           "a" "b" "c" 0 fresh_run);
    try reflexivity; try discriminate;
    intros entry [Hl _]; discriminate.
Defined.

(** ** The test decorator *)

Lemma wraps_spec func fo s :
  functions s !! func = Some fo →
  ∃ wrapper,
    wraps func s
    = Some (wrapper,
            {| functions :=
                 <[wrapper := {| __name__ := __name__ fo;
                                 __module__ := __module__ fo;
                                 ward_meta := ward_meta fo;
                                 __wrapped__ := Some func |}]> (functions s);
               metas := metas s;
               anonymous_tests := anonymous_tests s |})
    ∧ functions s !! wrapper = None.
Proof.
  intros Hf. exists (fresh (dom (functions s))). unfold wraps.
  rewrite Hf. simpl. split; [done|].
  apply not_elem_of_dom, is_fresh.
Qed.

Lemma description_of_wraps func wrapper w s fo :
  functions s !! func = Some fo →
  functions s !! wrapper = None →
  description_of {| functions := <[wrapper := w]> (functions s);
                    metas := metas s;
                    anonymous_tests := anonymous_tests s |} func
  = description_of s func.
Proof.
  intros Hf Hw. unfold description_of. simpl.
  rewrite lookup_insert_ne; [done|]. intros ->. congruence.
Qed.

(** The two cases of the decorator. *)
Lemma test_decorator_cases
    (description : string) (func : nat) (fo : FunctionObject) (s : Store) :
  functions s !! func = Some fo →
  (∀ r, ward_meta fo = Some r → is_Some (metas s !! r)) →
  ∃ wrapper s' w,
    test description func s = Some (wrapper, s')
    ∧ functions s' !! wrapper = Some w
    ∧ __wrapped__ w = Some func
    ∧ wrapper ≠ func
    ∧ (__name__ fo = "_" →
       description_of s' func = Some description
       ∧ anonymous_tests s' !! __module__ fo
         = Some (default [] (anonymous_tests s !! __module__ fo) ++ [func])
       ∧ ∀ m, m ≠ __module__ fo →
              anonymous_tests s' !! m = anonymous_tests s !! m)
    ∧ (__name__ fo ≠ "_" →
       anonymous_tests s' = anonymous_tests s
       ∧ metas s' = metas s
       ∧ functions s' !! func = Some fo
       ∧ description_of s' func = description_of s func).
Proof.
  intros Hf Hwf. unfold test. rewrite Hf. simpl.
  destruct (bool_decide (__name__ fo = "_")) eqn:Hname.
  - apply bool_decide_eq_true in Hname.
    assert (∃ s1 fo1,
      attach_description description func fo s = Some s1
      ∧ functions s1 !! func = Some fo1
      ∧ __module__ fo1 = __module__ fo
      ∧ description_of s1 func = Some description
      ∧ anonymous_tests s1 = anonymous_tests s) as (s1 & fo1 & Hs1 & Hf1 & Hm1 & Hd1 & Ha1).
    { unfold attach_description. destruct (ward_meta fo) as [r|] eqn:Hr.
      - destruct (Hwf r eq_refl) as [m Hm]. rewrite Hm. simpl.
        eexists _, fo. split_and!; try done.
        unfold description_of. simpl. rewrite Hf. simpl. rewrite Hr. simpl.
        by rewrite lookup_insert_eq.
      - eexists _, _. split_and!; [done | simpl; apply lookup_insert_eq
                                   | done | | done].
        unfold description_of. simpl. rewrite lookup_insert_eq. simpl.
        by rewrite lookup_insert_eq. }
    rewrite Hs1. simpl.
    destruct (wraps_spec func fo1 (register_anonymous (__module__ fo) func s1))
      as (wrapper & Hw & Hfresh); [done|].
    rewrite Hw. eexists wrapper, _, _. split_and!; [done | | | | |].
    + simpl. apply lookup_insert_eq.
    + done.
    + intros ->. simpl in Hfresh. congruence.
    + intros _. split_and!.
      * rewrite (description_of_wraps func wrapper _
                   (register_anonymous (__module__ fo) func s1) fo1);
          done.
      * simpl. rewrite Ha1. apply lookup_insert_eq.
      * intros m Hm. simpl. rewrite Ha1. by rewrite lookup_insert_ne.
    + intros Hne. done.
  - apply bool_decide_eq_false in Hname. simpl.
    destruct (wraps_spec func fo s) as (wrapper & Hw & Hfresh); [done|].
    rewrite Hw. eexists wrapper, _, _. split_and!; [done | | | | |].
    + simpl. apply lookup_insert_eq.
    + done.
    + intros ->. congruence.
    + done.
    + intros _. split_and!; try done.
      * simpl. rewrite lookup_insert_ne; [done|]. intros ->. congruence.
      * by apply (description_of_wraps func wrapper _ s fo).
Qed.

(** C9.  [test(description)] always returns a new wrapper around the
    function.  The function is appended to the list the registry keeps
    for its module if and only if it is named [_]; in that case the
    description is left on its metadata, and the lists of other modules
    are untouched.  If it has any other name, the registry and all
    metadata are left as they were: the function is not registered and no
    description is attached. *)
Theorem C9_test_decorator
    (description : string) (func : nat) (fo : FunctionObject) (s : Store) :
  functions s !! func = Some fo →
  (∀ r, ward_meta fo = Some r → is_Some (metas s !! r)) →
  ∃ wrapper s' w,
    test description func s = Some (wrapper, s')
    ∧ functions s' !! wrapper = Some w
    ∧ __wrapped__ w = Some func
    ∧ wrapper ≠ func
    ∧ (anonymous_tests s' !! __module__ fo
       = Some (default [] (anonymous_tests s !! __module__ fo) ++ [func])
       ↔ __name__ fo = "_")
    ∧ (__name__ fo = "_" →
       description_of s' func = Some description
       ∧ ∀ m, m ≠ __module__ fo →
              anonymous_tests s' !! m = anonymous_tests s !! m)
    ∧ (__name__ fo ≠ "_" →
       anonymous_tests s' = anonymous_tests s
       ∧ metas s' = metas s
       ∧ functions s' !! func = Some fo
       ∧ description_of s' func = description_of s func).
Proof.
  intros Hf Hwf.
  destruct (test_decorator_cases description func fo s Hf Hwf)
    as (wrapper & s' & w & Htest & Hw & Hwr & Hne & Hanon & Hnamed).
  exists wrapper, s', w. split_and!; try done.
  - split.
    + intros Hreg. destruct (decide (__name__ fo = "_")) as [|Hn]; [done|].
      destruct (Hnamed Hn) as (Hsame & _). rewrite Hsame in Hreg.
      destruct (anonymous_tests s !! __module__ fo) as [l|] eqn:El;
        [|done].
      simpl in Hreg. injection Hreg as Hl.
      apply (f_equal length) in Hl. rewrite length_app in Hl.
      simpl in Hl. lia.
    + intros Hn. by destruct (Hanon Hn) as (_ & ? & _).
  - intros Hn. by destruct (Hanon Hn) as (? & _ & ?).
Qed.

(** C9 at the anonymous function of [sample_store]. *)
Lemma C9_test_decorator_witness :
  ∃ wrapper s' w,
    test "adds numbers" 0 sample_store = Some (wrapper, s')
    ∧ functions s' !! wrapper = Some w
    ∧ __wrapped__ w = Some 0
    ∧ wrapper ≠ 0
    ∧ (anonymous_tests s' !! "test_mod"
       = Some (default [] (anonymous_tests sample_store !! "test_mod") ++ [0])
       ↔ "_" = "_")
    ∧ ("_" = "_" →
       description_of s' 0 = Some "adds numbers"
       ∧ ∀ m, m ≠ "test_mod" →
              anonymous_tests s' !! m = anonymous_tests sample_store !! m)
    ∧ ("_" ≠ "_" →
       anonymous_tests s' = anonymous_tests sample_store
       ∧ metas s' = metas sample_store
       ∧ functions s' !! 0 = Some (mkFunctionObject "_" "test_mod" None None)
       ∧ description_of s' 0 = description_of sample_store 0).
Proof.
  apply (C9_test_decorator "adds numbers" 0
           (mkFunctionObject "_" "test_mod" None None) sample_store).
  - reflexivity.
  - intros r Hr. discriminate.
Defined.

(** The named function of [sample_store] goes through unregistered. *)
Example test_named_not_registered :
  ∃ wrapper s',
    test "adds numbers" 1 sample_store = Some (wrapper, s')
    ∧ anonymous_tests s' = ∅ ∧ description_of s' 1 = None.
Proof. eexists _, _. split; [reflexivity|]. split; reflexivity. Qed.

(** * Further properties *)

(** ** Each: indexing *)

Lemma tuple_getitem_in_range (args : list PyVal) (i : Z) :
  (0 ≤ i < Z.of_nat (length args))%Z →
  ∃ v, args !! Z.to_nat i = Some v
       ∧ tuple_getitem args i = Ok v
       ∧ tuple_getitem args (i - Z.of_nat (length args)) = Ok v.
Proof.
  intros Hi. unfold tuple_getitem.
  destruct (lookup_lt_is_Some_2 args (Z.to_nat i)) as [v Hv]; [lia|].
  exists v. split; [done|]. split.
  - replace (i <? 0)%Z with false by lia.
    replace (0 <=? i)%Z with true by lia.
    replace (i <? Z.of_nat (length args))%Z with true by lia.
    simpl. by rewrite Hv.
  - replace (i - Z.of_nat (length args) <? 0)%Z with true by lia.
    replace (i - Z.of_nat (length args) + Z.of_nat (length args))%Z
      with i by lia.
    replace (0 <=? i)%Z with true by lia.
    replace (i <? Z.of_nat (length args))%Z with true by lia.
    simpl. by rewrite Hv.
Qed.

(** X1.  An [Each] has as many items as [each] was given.  Indexing it
    with [i] in range returns item [i], and so does indexing it with
    [i - len], a negative index counting from the end; an index below
    [-len] or from [len] on raises [IndexError]. *)
Theorem X1_Each_getitem_bounds (args : list PyVal) (i : Z) :
  Each_len (each args) = length args
  ∧ ((0 ≤ i < Z.of_nat (length args))%Z →
     ∃ v, args !! Z.to_nat i = Some v
          ∧ Each_getitem (each args) i = Ok v
          ∧ Each_getitem (each args) (i - Z.of_nat (length args)) = Ok v)
  ∧ ((i < - Z.of_nat (length args) ∨ Z.of_nat (length args) ≤ i)%Z →
     Each_getitem (each args) i = Raise IndexError).
Proof.
  split; [done|]. split; [apply tuple_getitem_in_range|].
  unfold each, Each_getitem, tuple_getitem. intros [Hi | Hi].
  - replace (i <? 0)%Z with true by lia.
    replace (0 <=? i + Z.of_nat (length args))%Z with false by lia.
    done.
  - replace (i <? 0)%Z with false by lia.
    replace (i <? Z.of_nat (length args))%Z with false by lia.
    by rewrite andb_false_r.
Qed.

(** X1 at the last item of an [Each] of three. *)
Lemma X1_Each_getitem_bounds_witness :
  ∃ v, [VInt 1; VInt 2; VInt 3] !! Z.to_nat 2 = Some v
       ∧ Each_getitem (each [VInt 1; VInt 2; VInt 3]) 2 = Ok v
       ∧ Each_getitem (each [VInt 1; VInt 2; VInt 3])
           (2 - Z.of_nat (length [VInt 1; VInt 2; VInt 3])) = Ok v.
Proof.
  apply (proj1 (proj2 (X1_Each_getitem_bounds [VInt 1; VInt 2; VInt 3] 2))).
  simpl. lia.
Defined.

(** ** Parameterisation: the number of instances *)

Lemma each_lengths_nil self :
  is_parameterised self = false → each_lengths self = [].
Proof.
  intros Hp. destruct (each_lengths self) as [|m l] eqn:E; [done|].
  assert (Hm : m ∈ each_lengths self) by (rewrite E; left).
  apply each_lengths_elem in Hm as (nm & args & Hin & _).
  assert (is_parameterised self = true) by (apply is_parameterised_true; eauto).
  congruence.
Qed.

Lemma find_number_Ok_inv self n :
  _find_number_of_instances self = Ok n →
  n ∈ each_lengths self ∧ ∀ m, m ∈ each_lengths self → m = n.
Proof.
  unfold _find_number_of_instances.
  destruct (negb _) eqn:Hvalid; [done|].
  apply negb_false_iff, bool_decide_eq_true in Hvalid.
  destruct (each_lengths self) as [|k l] eqn:E; [done|].
  simpl. intros Heq. simplify_eq. split; [left|].
  intros m Hm.
  assert (Hn : n ∈ (list_to_set (n :: l) : gset nat))
    by (apply elem_of_list_to_set; left).
  assert (Hm' : m ∈ (list_to_set (n :: l) : gset nat))
    by (by apply elem_of_list_to_set).
  destruct Hvalid as [H0 | H1].
  - apply size_empty_inv in H0. rewrite H0 in Hn.
    by apply not_elem_of_empty in Hn.
  - by apply (size_singleton_inv _ _ _ H1).
Qed.

(** X2.  On a test without any [Each] argument
    [_find_number_of_instances] does not return a number: the empty list
    of lengths counts as valid and taking its first element raises
    [IndexError]. *)
Theorem X2_find_number_unparameterised (self : Test) :
  is_parameterised self = false →
  _find_number_of_instances self = Raise IndexError.
Proof.
  intros Hp. unfold _find_number_of_instances.
  by rewrite (each_lengths_nil self Hp).
Qed.

(** X2 at a test with a fixture and a literal argument. *)
Lemma X2_find_number_unparameterised_witness :
  _find_number_of_instances test_query = Raise IndexError.
Proof.
  apply (X2_find_number_unparameterised test_query). reflexivity.
Defined.

Lemma find_number_Raise_inv self e :
  is_parameterised self = true →
  _find_number_of_instances self = Raise e →
  e = ParameterisationError (parameterisation_message self)
  ∧ ∃ a b, a ∈ each_lengths self ∧ b ∈ each_lengths self ∧ a ≠ b.
Proof.
  intros Hp. apply is_parameterised_true in Hp as (nm & args & Hin).
  assert (Ha : length args ∈ each_lengths self)
    by (apply each_lengths_elem; eauto).
  destruct (decide (Forall (λ m, m = length args) (each_lengths self)))
    as [Hall | Hnot].
  - rewrite Forall_forall in Hall.
    rewrite (find_number_equal self (length args)); [done | | done].
    apply is_parameterised_true; eauto.
  - apply not_Forall_Exists, Exists_exists in Hnot as (b & Hb & Hne);
      [|apply _].
    rewrite (find_number_unequal self (length args) b) by congruence.
    intros Heq. simplify_eq. split; [done|]. exists (length args), b.
    split_and!; [done | done | congruence].
Qed.

(** X3.  [get_parameterised_instances] has three outcomes and no other.
    For a test that is not parameterised: the test itself, no identifier
    drawn.  For a parameterised test whose [Each] arguments all have the
    length [n]: the [n] clones carrying the next [n] draws of [uuid4], in
    order.  Otherwise two [Each] arguments differ in length and it raises
    the [ParameterisationError] of the test, no identifier drawn; it
    never raises anything else. *)
Theorem X3_get_parameterised_instances_cases
    (uuid4 : nat → string) (self : Test) (drawn : nat) :
  match get_parameterised_instances uuid4 self drawn with
  | (Ok tests, drawn') =>
      (is_parameterised self = false ∧ tests = [self] ∧ drawn' = drawn)
      ∨ (is_parameterised self = true
         ∧ tests = (λ i, clone self (uuid4 i)) <$> seq drawn (length tests)
         ∧ drawn' = drawn + length tests
         ∧ ∀ m, m ∈ each_lengths self → m = length tests)
  | (Raise e, drawn') =>
      drawn' = drawn
      ∧ e = ParameterisationError (parameterisation_message self)
      ∧ ∃ a b, a ∈ each_lengths self ∧ b ∈ each_lengths self ∧ a ≠ b
  end.
Proof.
  unfold get_parameterised_instances.
  destruct (is_parameterised self) eqn:Hp; simpl; [|by left].
  destruct (_find_number_of_instances self) as [n | e] eqn:Hfind.
  - rewrite generate_tests_seq. right.
    rewrite length_fmap, length_seq. split_and!; try done.
    intros m Hm. by apply (find_number_Ok_inv self n Hfind).
  - split; [done|]. by apply find_number_Raise_inv.
Qed.

Lemma substituted_in_range (self : Test) (n : nat) (i : Z)
    (name : string) (arg : PyVal) :
  _find_number_of_instances self = Ok n →
  (0 ≤ i < Z.of_nat n)%Z →
  (name, arg) ∈ _get_default_args self →
  ∃ v, substituted i arg = Ok v
       ∧ match arg with
         | VEach args => args !! Z.to_nat i = Some v
         | _ => v = arg
         end.
Proof.
  intros Hfind Hi Hin. unfold substituted.
  destruct arg as [| | | |args|]; simpl; try by eexists.
  assert (Hlen : length args = n).
  { apply (find_number_Ok_inv self n Hfind).
    apply each_lengths_elem. eauto. }
  destruct (tuple_getitem_in_range args i) as (v & Hv & Hget & _); [lia|].
  by exists v.
Qed.

(** X4.  The iteration indices that the expansion hands out are in
    range: if [_find_number_of_instances] returns [n] and
    [0 <= i < n], then for every default argument the [Each]
    substitution at [i] succeeds, giving item [i] of an [Each] and any
    other value unchanged. *)
Theorem X4_substitution_in_range (self : Test) (n : nat) (i : Z)
    (name : string) (arg : PyVal) :
  _find_number_of_instances self = Ok n →
  (0 ≤ i < Z.of_nat n)%Z →
  (name, arg) ∈ _get_default_args self →
  ∃ v, substituted i arg = Ok v
       ∧ match arg with
         | VEach args => args !! Z.to_nat i = Some v
         | _ => v = arg
         end.
Proof. apply substituted_in_range. Qed.

(** X4 at the last iteration of a test with two [Each] of three. *)
Lemma X4_substitution_in_range_witness :
  ∃ v, substituted 2 (each [VStr "a"; VStr "b"; VStr "c"]) = Ok v
       ∧ [VStr "a"; VStr "b"; VStr "c"] !! Z.to_nat 2 = Some v.
Proof.
  apply (X4_substitution_in_range test_each3 3 2 "y"
           (each [VStr "a"; VStr "b"; VStr "c"])).
  - reflexivity.
  - simpl. lia.
  - right. left.
Defined.

(** ** Errors of the resolution *)

Section Errors.
Context {World : Type}.
Variable call_fn : Func → list (string * PyVal) → World → Outcome * World.
Variable self : Test.

Implicit Types st : RunState World.

Lemma invoke_fixture_error fixture kwargs st e st' :
  invoke_fixture call_fn fixture kwargs st = (Raise e, st') →
  fixture_failure e.
Proof.
  unfold invoke_fixture.
  destruct (call_fn (fx_fn fixture) kwargs (world st)) as [[v | x] w];
    intros Heq; simplify_eq.
  unfold raised_error. by destruct (is_Exception x).
Qed.

Lemma resolve_children_error rec params :
  (∀ name g, (name, Some (VFunc g)) ∈ params →
     ∀ st e st', rec g st = (Raise e, st') → fixture_failure e) →
  ∀ st e st',
    resolve_children rec params st = (Raise e, st') → fixture_failure e.
Proof.
  induction params as [|[name [child|]] rest IH]; intros Hrec st e st';
    simpl.
  - done.
  - assert (Hrest : ∀ st e st',
              resolve_children rec rest st = (Raise e, st') →
              fixture_failure e).
    { apply IH. intros n g Hin. apply (Hrec n). by right. }
    destruct child as [| | | | |g]; try (intros; by simplify_eq).
    destruct (rec g st) as [[fx | x] st1] eqn:Eg.
    + destruct (resolve_children rec rest st1) as [[l | x] st2] eqn:Er;
        intros; simplify_eq. by eapply Hrest.
    + intros; simplify_eq. eapply (Hrec name g); [left | done].
  - apply IH. intros n g Hin. apply (Hrec n). by right.
Qed.

Lemma resolve_single_error f :
  ∀ st e st',
    _resolve_single_fixture call_fn self f st = (Raise e, st') →
    fixture_failure e.
Proof.
  induction f as [f IH] using Func_deps_ind. intros st e st'.
  rewrite resolve_single_unfold.
  destruct (lookup_hit self f (cache st)); [done|]. simpl.
  destruct (negb _); [apply invoke_fixture_error|].
  destruct (resolve_children _ (fn_params f) st) as [[ch | x] st1] eqn:Ec.
  - apply invoke_fixture_error.
  - intros; simplify_eq. by eapply (resolve_children_error _ _ IH).
Qed.

Lemma resolve_argument_error arg st e st' :
  resolve_argument call_fn self arg st = (Raise e, st') → fixture_failure e.
Proof.
  destruct arg as [| | | | |f]; simpl; try done.
  destruct (match fn_meta f with Some m => is_fixture m | None => false end);
    [|done].
  destruct (_resolve_single_fixture call_fn self f st) as [[fx | x] st1] eqn:E;
    intros; simplify_eq. by eapply resolve_single_error.
Qed.

Lemma substituted_error iteration arg e :
  substituted iteration arg = Raise e → e = IndexError.
Proof.
  unfold substituted. destruct arg; simpl; try done.
  unfold tuple_getitem. destruct (_ && _)%bool; [|congruence].
  destruct (_ !! _); congruence.
Qed.

Lemma resolve_items_error iteration items :
  ∀ st e st',
    resolve_items call_fn self iteration items st = (Raise e, st') →
    fixture_failure e
    ∨ (e = IndexError
       ∧ ∃ name arg, (name, arg) ∈ items
                     ∧ substituted iteration arg = Raise IndexError).
Proof.
  induction items as [|[name arg] rest IH]; intros st e st'; simpl; [done|].
  fold (substituted iteration arg).
  destruct (substituted iteration arg) as [arg' | x] eqn:Hsub.
  - destruct (resolve_argument call_fn self arg' st) as [[r | x] st1] eqn:Ha.
    + destruct (resolve_items call_fn self iteration rest st1)
        as [[l | x] st2] eqn:Hr; intros; simplify_eq.
      destruct (IH _ _ _ Hr) as [? | (-> & n & a & Hin & Hs)]; [by left|].
      right. split; [done|]. exists n, a. split; [by right | done].
    + intros; simplify_eq. left. by eapply resolve_argument_error.
  - intros; simplify_eq. pose proof (substituted_error _ _ _ Hsub) as ->.
    right. split; [done|]. exists name, arg. split; [left | done].
Qed.
End Errors.

(** X5.  [resolve_args] never raises a [ParameterisationError]; and for
    an iteration index below the number of instances that
    [_find_number_of_instances] returns it does not raise an
    [IndexError] either. *)
Theorem X5_resolve_args_errors
    {World : Type}
    (call_fn : Func → list (string * PyVal) → World → Outcome * World)
    (self : Test) (iteration : Z) (st : RunState World) (e : PyError) :
  (resolve_args call_fn self iteration st).1 = Raise e →
  (∀ msg, e ≠ ParameterisationError msg)
  ∧ (∀ n, _find_number_of_instances self = Ok n →
          (0 ≤ iteration < Z.of_nat n)%Z → e ≠ IndexError).
Proof.
  unfold resolve_args. destruct (negb (has_deps self)); [done|].
  destruct (resolve_items call_fn self iteration (_get_default_args self) st)
    as [[l | x] st'] eqn:Hr; [done|].
  simpl. intros Heq. simplify_eq.
  destruct (resolve_items_error _ _ _ _ _ _ _ Hr)
    as [Hf | (-> & name & arg & Hin & Hsub)].
  - split; [by intros msg ->|]. by intros n _ _ ->.
  - split; [done|]. intros n Hfind Hi _.
    destruct (substituted_in_range self n iteration name arg Hfind Hi Hin)
      as (v & Hv & _).
    congruence.
Qed.

(** X5 at a test whose first argument is a fixture that raises. *)
Lemma X5_resolve_args_errors_witness :
  (∀ msg,
     FixtureError "Unable to resolve fixture 'broken'"
       (Exc "RuntimeError" "no database") ≠ ParameterisationError msg)
  ∧ (∀ n, _find_number_of_instances test_broken_each = Ok n →
          (0 ≤ 0 < Z.of_nat n)%Z →
          FixtureError "Unable to resolve fixture 'broken'"
            (Exc "RuntimeError" "no database") ≠ IndexError).
Proof.
  apply (X5_resolve_args_errors sample_call test_broken_each 0 fresh_run).
  reflexivity.
Defined.

(** ** Arguments that need no fixture *)

(** X6.  If no default argument of the test is a fixture function (nor
    an [Each] whose item at the iteration index is one), [resolve_args]
    touches nothing: cache, world and trace are what they were, whether
    it returns or raises; and when it returns, every argument is mapped
    to its value, an [Each] to its item at the index.  A test without
    parameters is the case of the empty mapping. *)
Theorem X6_resolve_args_without_fixtures
    {World : Type}
    (call_fn : Func → list (string * PyVal) → World → Outcome * World)
    (self : Test) (iteration : Z) (st : RunState World) :
  (∀ name arg v, (name, arg) ∈ _get_default_args self →
                 substituted iteration arg = Ok v →
                 is_fixture_arg v = false) →
  (resolve_args call_fn self iteration st).2 = st
  ∧ ∀ resolved_args,
      (resolve_args call_fn self iteration st).1 = Ok resolved_args →
      Forall2 (λ item out,
                 ∃ v, substituted iteration item.2 = Ok v
                      ∧ out = (item.1, RValue v))
              (_get_default_args self) resolved_args.
Proof.
  intros Hlit. unfold resolve_args.
  destruct (negb (has_deps self)) eqn:Hd.
  - split; [done|]. simpl. intros ? [= <-].
    unfold _get_default_args, has_deps, deps in *.
    destruct (fn_params (fn self)); [constructor|].
    apply negb_true_iff, bool_decide_eq_false in Hd. simpl in Hd. lia.
  - revert Hlit. generalize (_get_default_args self). clear Hd.
    intros items. induction items as [|[name arg] rest IH]; intros Hlit.
    + simpl. split; [done|]. intros ? [= <-]. constructor.
    + simpl. fold (substituted iteration arg).
      destruct (substituted iteration arg) as [v | x] eqn:Hsub; [|done].
      assert (Hv : is_fixture_arg v = false)
        by (eapply (Hlit name arg); [left | done]).
      assert (Hone : resolve_argument call_fn self v st = (Ok (RValue v), st)).
      { destruct v; try done. unfold resolve_argument. by rewrite Hv. }
      rewrite Hone.
      destruct IH as [IHst IHres].
      { intros n a w Hin. apply (Hlit n a w). by right. }
      destruct (resolve_items call_fn self iteration rest st)
        as [[l | x] st2]; simpl in *; subst st2; split; try done.
      intros ? [= <-]. constructor; [|by apply IHres].
      by exists v.
Qed.

(** X6 at a test with a literal and an [Each] of literals. *)
Lemma X6_resolve_args_without_fixtures_witness :
  (resolve_args sample_call test_each 1 fresh_run).2 = fresh_run
  ∧ ∀ resolved_args,
      (resolve_args sample_call test_each 1 fresh_run).1 = Ok resolved_args →
      Forall2 (λ item out,
                 ∃ v, substituted 1 item.2 = Ok v
                      ∧ out = (item.1, RValue v))
              (_get_default_args test_each) resolved_args.
Proof.
  apply (X6_resolve_args_without_fixtures sample_call test_each 1 fresh_run).
  intros name arg v Hin Hsub. vm_compute in Hin.
  repeat (apply elem_of_cons in Hin as [Hin | Hin];
          [simplify_eq; vm_compute in Hsub; by simplify_eq|]).
  by apply elem_of_nil in Hin.
Defined.

(** ** What a call leaves in the cache *)

Lemma cache_after_is_Some evs c k :
  is_Some (c !! k) → is_Some (cache_after evs c !! k).
Proof.
  revert c. induction evs as [|[fx kw [v | e]] evs IH]; intros c Hk;
    [done | | by apply IH].
  apply IH. unfold cache_fixture.
  destruct (decide (Fixture_key (stored_fixture fx kw v) = k)) as [<- | Hne].
  - rewrite lookup_insert_eq. by eexists.
  - by rewrite lookup_insert_ne.
Qed.

Lemma cache_entry_origin
    {World : Type}
    (call_fn : Func → list (string * PyVal) → World → Outcome * World)
    (self : Test) (iteration : Z) (st : RunState World)
    (k : string) (entry : Fixture) :
  cache (resolve_args call_fn self iteration st).2 !! k = Some entry →
  cache st !! k = Some entry
  ∨ (Fixture_key entry = k
     ∧ last_resolved_test_id entry = Some (id self)
     ∧ last_resolved_module_name entry = Some (module_name self)
     ∧ (is_Some (gen entry) ↔ fn_is_generator (fx_fn entry) = true)).
Proof.
  destruct (resolve_args_run call_fn self iteration st)
    as (evs & _ & Hbook & _ & ->).
  intros Hl. apply cache_after_lookup in Hl
    as [Hl | (fx & kw & v & Hin & Hk & ->)]; [by left|].
  right. rewrite Forall_forall in Hbook. specialize (Hbook _ Hin).
  simpl in Hbook. rewrite Hbook. unfold stored_fixture, is_generator_fixture.
  simpl. split_and!; try done.
  destruct (fn_is_generator (fx_fn fx)); split; try done.
Qed.

(** X7.  Every entry of the cache after a call of [resolve_args] is an
    entry the cache held before the call, unchanged, or one the call
    stored: filed under its own key, recording the identifier and the
    module name of the requesting test, and holding a generator exactly
    when its function is a generator function. *)
Theorem X7_cache_entries_after_call
    {World : Type}
    (call_fn : Func → list (string * PyVal) → World → Outcome * World)
    (self : Test) (iteration : Z) (st : RunState World)
    (k : string) (entry : Fixture) :
  cache (resolve_args call_fn self iteration st).2 !! k = Some entry →
  cache st !! k = Some entry
  ∨ (Fixture_key entry = k
     ∧ last_resolved_test_id entry = Some (id self)
     ∧ last_resolved_module_name entry = Some (module_name self)
     ∧ (is_Some (gen entry) ↔ fn_is_generator (fx_fn entry) = true)).
Proof. apply cache_entry_origin. Qed.

(** X7 at the entry of the generator fixture [fix_a] after the chain has
    been resolved on an empty cache. *)
Lemma X7_cache_entries_after_call_witness :
  cache fresh_run !! "conftest.py::a" = Some chain_entry_a
  ∨ (Fixture_key chain_entry_a = "conftest.py::a"
     ∧ last_resolved_test_id chain_entry_a = Some (id test_chain)
     ∧ last_resolved_module_name chain_entry_a
       = Some (module_name test_chain)
     ∧ (is_Some (gen chain_entry_a)
        ↔ fn_is_generator (fx_fn chain_entry_a) = true)).
Proof.
  apply (X7_cache_entries_after_call sample_call test_chain 0 fresh_run).
  reflexivity.
Defined.

(** X8.  [resolve_args] never removes a key from the cache, and if every
    entry was filed under its own key before the call, so it is
    afterwards. *)
Theorem X8_cache_kept_in_order
    {World : Type}
    (call_fn : Func → list (string * PyVal) → World → Outcome * World)
    (self : Test) (iteration : Z) (st : RunState World) :
  (∀ k, is_Some (cache st !! k) →
        is_Some (cache (resolve_args call_fn self iteration st).2 !! k))
  ∧ (well_keyed (cache st) →
     well_keyed (cache (resolve_args call_fn self iteration st).2)).
Proof.
  split.
  - destruct (resolve_args_run call_fn self iteration st)
      as (evs & _ & _ & _ & ->).
    intros k. apply cache_after_is_Some.
  - intros Hwk k entry Hl.
    apply cache_entry_origin in Hl as [Hl | [Hk _]]; [|done].
    by apply Hwk.
Qed.

(** X8 at the chain resolved on an empty cache. *)
Lemma X8_cache_kept_in_order_witness :
  well_keyed (cache (resolve_args sample_call test_chain 0 fresh_run).2).
Proof.
  apply (proj2 (X8_cache_kept_in_order sample_call test_chain 0 fresh_run)).
  intros k entry Hl. simpl in Hl. by rewrite lookup_empty in Hl.
Defined.

(** ** Reuse of a resolved fixture *)

Section Reuse.
Context {World : Type}.
Variable call_fn : Func → list (string * PyVal) → World → Outcome * World.

Implicit Types st : RunState World.

Lemma resolve_single_validates self f st fx st' :
  _resolve_single_fixture call_fn self f st = (Ok fx, st') →
  cache_hit self f (cache st') fx.
Proof.
  intros Hres. split; [by eapply resolve_single_returned|].
  rewrite resolve_single_unfold in Hres.
  destruct (lookup_hit self f (cache st)) as [c|] eqn:Hhit.
  - simplify_eq. by apply lookup_hit_Some in Hhit as [_ ?].
  - simpl in Hres.
    assert (∃ kwargs st1, invoke_fixture call_fn (pending self f)
              kwargs st1 = (Ok fx, st')) as (kw & st1 & Hinv).
    { destruct (negb _); [by eauto|].
      destruct (resolve_children _ _ st) as [[ch | e] st1]; [by eauto|done]. }
    apply invoke_fixture_Ok in Hinv as (-> & _ & _).
    unfold scope_validates. by destruct (fn_scope f).
Qed.
End Reuse.

(** X9.  A fixture that has just been resolved for a test is served to
    the same test from the cache: asking again returns the same
    [Fixture] and changes nothing, whatever the scope of the fixture. *)
Theorem X9_repeated_request_is_a_hit
    {World : Type}
    (call_fn : Func → list (string * PyVal) → World → Outcome * World)
    (self : Test) (fixture_fn : Func) (st st' : RunState World)
    (fixture : Fixture) :
  _resolve_single_fixture call_fn self fixture_fn st = (Ok fixture, st') →
  _resolve_single_fixture call_fn self fixture_fn st' = (Ok fixture, st').
Proof.
  intros Hres. apply resolve_single_validates in Hres.
  apply lookup_hit_Some in Hres. by rewrite resolve_single_unfold, Hres.
Qed.

(** X9 at the head of the chain. *)
Lemma X9_repeated_request_is_a_hit_witness :
  _resolve_single_fixture sample_call test_chain fix_a
    (_resolve_single_fixture sample_call test_chain fix_a fresh_run).2
  = (Ok chain_entry_a,
     (_resolve_single_fixture sample_call test_chain fix_a fresh_run).2).
Proof.
  apply (X9_repeated_request_is_a_hit sample_call test_chain fix_a fresh_run).
  reflexivity.
Defined.

(** X10.  After a fixture has been resolved for test [a], a request of
    test [b] is served that same [Fixture] from the cache, without any
    invocation, if the fixture has Global scope, or Module scope and [b]
    is of the module of [a], or Test scope and [b] has the identifier of
    [a]; in every other case the request of [b] is a cache miss. *)
Theorem X10_reuse_across_tests
    {World : Type}
    (call_fn : Func → list (string * PyVal) → World → Outcome * World)
    (a b : Test) (fixture_fn : Func) (st st' : RunState World)
    (fixture : Fixture) :
  _resolve_single_fixture call_fn a fixture_fn st = (Ok fixture, st') →
  (same_scope (fn_scope fixture_fn) a b →
   _resolve_single_fixture call_fn b fixture_fn st' = (Ok fixture, st'))
  ∧ (¬ same_scope (fn_scope fixture_fn) a b →
     ∀ entry, ¬ cache_hit b fixture_fn (cache st') entry).
Proof.
  intros Hres. apply resolve_single_validates in Hres as [Hl Hscope].
  unfold same_scope, scope_validates in *. split.
  - intros Hsame.
    assert (Hhit : cache_hit b fixture_fn (cache st') fixture).
    { split; [done|]. unfold scope_validates.
      destruct (fn_scope fixture_fn); [| |done]; by rewrite Hsame. }
    apply lookup_hit_Some in Hhit. by rewrite resolve_single_unfold, Hhit.
  - intros Hdiff entry [Hl' Hscope']. simplify_eq. apply Hdiff.
    unfold scope_validates in Hscope'.
    destruct (fn_scope fixture_fn); [| |done]; congruence.
Qed.

(** X10 at a module-scoped fixture, asked for again from the same module
    and from another. *)
Lemma X10_reuse_across_tests_witness :
  (same_scope (fn_scope fix_settings) test_in_m1 test_in_m1 →
   _resolve_single_fixture sample_call test_in_m1 fix_settings run_after_m1
   = (Ok (stored_fixture (pending test_in_m1 fix_settings) []
            (VTuple [VStr "settings"])), run_after_m1))
  ∧ (¬ same_scope (fn_scope fix_settings) test_in_m1 test_in_m2 →
     ∀ entry, ¬ cache_hit test_in_m2 fix_settings (cache run_after_m1) entry).
Proof.
  split.
  - apply (proj1 (X10_reuse_across_tests sample_call test_in_m1 test_in_m1
                    fix_settings fresh_run run_after_m1 _ eq_refl)).
  - apply (proj2 (X10_reuse_across_tests sample_call test_in_m1 test_in_m2
                    fix_settings fresh_run run_after_m1 _ eq_refl)).
Defined.

(** ** The keyword arguments a fixture function is called with *)

Section Kwargs.
Context {World : Type}.
Variable call_fn : Func → list (string * PyVal) → World → Outcome * World.
Variable self : Test.

Implicit Types st : RunState World.

Lemma kwargs_ok_refl st : kwargs_ok st st.
Proof. exists []. by rewrite app_nil_r. Qed.

Lemma kwargs_ok_seq st st1 st2 :
  kwargs_ok st st1 → kwargs_ok st1 st2 → kwargs_ok st st2.
Proof.
  intros (evs1 & Ht1 & H1) (evs2 & Ht2 & H2). exists (evs1 ++ evs2).
  split; [by rewrite Ht2, Ht1, app_assoc | by apply Forall_app].
Qed.

Lemma invoke_fixture_kwargs fixture kwargs st :
  kwargs.*1 = (default_arguments (fn_params (fx_fn fixture))).*1 →
  kwargs_ok st (invoke_fixture call_fn fixture kwargs st).2.
Proof.
  intros Hk. unfold invoke_fixture.
  destruct (call_fn (fx_fn fixture) kwargs (world st)) as [out w].
  exists [EvCall fixture kwargs out].
  destruct out; (split; [done|]); by apply Forall_singleton.
Qed.

Lemma resolve_children_names rec params st children st' :
  resolve_children rec params st = (Ok children, st') →
  (_resolve_fixture_values children).*1 = (default_arguments params).*1.
Proof.
  revert st children. induction params as [|[name [child|]] rest IH];
    intros st children; simpl.
  - by intros [= <- <-].
  - destruct (match child with VFunc g => rec g st | _ => _ end)
      as [[fx | e] st1]; [|done].
    destruct (resolve_children rec rest st1) as [[l | e] st2] eqn:Er; [|done].
    intros [= <- <-]. unfold default_arguments. simpl. f_equal.
    by apply (IH st1).
  - apply IH.
Qed.

Lemma resolve_children_kwargs rec params :
  (∀ name g, (name, Some (VFunc g)) ∈ params →
     ∀ st, kwargs_ok st (rec g st).2) →
  ∀ st, kwargs_ok st (resolve_children rec params st).2.
Proof.
  induction params as [|[name [child|]] rest IH]; intros Hrec st; simpl.
  - apply kwargs_ok_refl.
  - assert (Hrest : ∀ st, kwargs_ok st (resolve_children rec rest st).2).
    { apply IH. intros n g Hin. apply (Hrec n). by right. }
    destruct child as [| | | | |g]; try apply kwargs_ok_refl.
    specialize (Hrec name g (ltac:(left)) st).
    destruct (rec g st) as [[fx | e] st1]; simpl in *; [|done].
    specialize (Hrest st1).
    destruct (resolve_children rec rest st1) as [[l | e] st2];
      simpl in *; by eapply kwargs_ok_seq.
  - apply IH. intros n g Hin. apply (Hrec n). by right.
Qed.

Lemma resolve_single_kwargs f :
  ∀ st, kwargs_ok st (_resolve_single_fixture call_fn self f st).2.
Proof.
  induction f as [f IH] using Func_deps_ind. intros st.
  rewrite resolve_single_unfold.
  destruct (lookup_hit self f (cache st)); [apply kwargs_ok_refl|].
  simpl. destruct (negb _) eqn:Hdeps.
  - apply invoke_fixture_kwargs. simpl.
    apply negb_true_iff, bool_decide_eq_false in Hdeps.
    destruct (fn_params f); [done | simpl in Hdeps; lia].
  - pose proof (resolve_children_kwargs _ _ IH st) as Hch.
    destruct (resolve_children _ (fn_params f) st)
      as [[children | e] st1] eqn:Ec; simpl in *; [|done].
    eapply kwargs_ok_seq; [done|]. apply invoke_fixture_kwargs.
    by eapply resolve_children_names.
Qed.

Lemma resolve_items_kwargs iteration items :
  ∀ st, kwargs_ok st (resolve_items call_fn self iteration items st).2.
Proof.
  induction items as [|[name arg] rest IH]; intros st; simpl.
  - apply kwargs_ok_refl.
  - destruct (if isinstance_Each arg then _ else _) as [arg' | e];
      [|apply kwargs_ok_refl].
    assert (Hone : kwargs_ok st (resolve_argument call_fn self arg' st).2).
    { destruct arg' as [| | | | |f]; try apply kwargs_ok_refl.
      unfold resolve_argument.
      destruct (is_fixture_arg (VFunc f)); [|apply kwargs_ok_refl].
      pose proof (resolve_single_kwargs f st) as Hf.
      by destruct (_resolve_single_fixture call_fn self f st)
        as [[fx | e] st1]. }
    destruct (resolve_argument call_fn self arg' st)
      as [[r | e] st1]; simpl in *; [|done].
    specialize (IH st1).
    destruct (resolve_items call_fn self iteration rest st1)
      as [[l | e] st2]; simpl in *; by eapply kwargs_ok_seq.
Qed.
End Kwargs.

(** X11.  Every fixture function that [resolve_args] invokes, at any
    depth, is called with one keyword argument for each of its parameters
    that has a default, under the names of those parameters and in
    signature order, and with no other argument. *)
Theorem X11_factories_called_with_their_defaults
    {World : Type}
    (call_fn : Func → list (string * PyVal) → World → Outcome * World)
    (self : Test) (iteration : Z) (st : RunState World) :
  ∃ evs,
    trace (resolve_args call_fn self iteration st).2 = trace st ++ evs
    ∧ ∀ fixture kwargs out,
        EvCall fixture kwargs out ∈ evs →
        kwargs.*1 = (default_arguments (fn_params (fx_fn fixture))).*1.
Proof.
  assert (kwargs_ok st (resolve_args call_fn self iteration st).2)
    as (evs & Htr & Hall).
  { unfold resolve_args. destruct (negb _); [apply kwargs_ok_refl|].
    apply resolve_items_kwargs. }
  exists evs. split; [done|]. intros fixture kwargs out Hin.
  rewrite Forall_forall in Hall. exact (Hall _ Hin).
Qed.

(** ** Decorators and shared metadata *)

Lemma description_of_meta s func :
  description_of s func = meta_of s func ≫= meta_description.
Proof.
  unfold description_of, meta_of, meta_ref.
  destruct (functions s !! func) as [fo|]; [|done]. simpl.
  by destruct (ward_meta fo).
Qed.

Lemma attach_description_meta description func fo s :
  attach_description description func fo s
  = attach_meta (λ m, set_description m description)
                (mkWardMeta None (Some description) false) func fo s.
Proof. done. Qed.

Lemma attach_marker_meta marker func fo s :
  attach_marker marker func fo s
  = attach_meta (λ m, set_marker m marker)
                (mkWardMeta (Some marker) None false) func fo s.
Proof. done. Qed.

Lemma attach_meta_spec upd init func fo s :
  functions s !! func = Some fo →
  store_wf s →
  ∃ s1 r fo1,
    attach_meta upd init func fo s = Some s1
    ∧ meta_written s s1 func r
        (match meta_of s func with Some m => upd m | None => init end)
    ∧ functions s1 !! func = Some fo1
    ∧ __name__ fo1 = __name__ fo
    ∧ __module__ fo1 = __module__ fo
    ∧ (∀ a, a ≠ func → functions s1 !! a = functions s !! a)
    ∧ anonymous_tests s1 = anonymous_tests s
    ∧ store_wf s1.
Proof.
  intros Hf Hwf. unfold attach_meta.
  destruct (ward_meta fo) as [r|] eqn:Hr.
  - assert (Href : meta_ref s func = Some r)
      by (unfold meta_ref; rewrite Hf; done).
    destruct (Hwf func r Href) as [m Hm]. rewrite Hm. simpl.
    eexists _, r, fo. split; [done|].
    assert (Hmeta : meta_of s func = Some m)
      by (unfold meta_of; rewrite Href; done).
    rewrite Hmeta. split_and!; try done.
    + split_and!; simpl; try done.
      * apply lookup_insert_eq.
      * intros r' Hne. by rewrite lookup_insert_ne.
      * by left.
    + intros a r' Ha. unfold meta_ref in Ha. simpl in *.
      destruct (decide (r' = r)) as [-> | Hne].
      * rewrite lookup_insert_eq. by eexists.
      * rewrite lookup_insert_ne by done. by apply (Hwf a).
  - assert (Href : meta_ref s func = None)
      by (unfold meta_ref; rewrite Hf; done).
    assert (Hfresh : metas s !! fresh (dom (metas s)) = None)
      by apply not_elem_of_dom, is_fresh.
    assert (Hmeta : meta_of s func = None)
      by (unfold meta_of; rewrite Href; done).
    rewrite Hmeta.
    eexists _, (fresh (dom (metas s))),
      {| __name__ := __name__ fo; __module__ := __module__ fo;
         ward_meta := Some (fresh (dom (metas s)));
         __wrapped__ := __wrapped__ fo |}.
    split; [done|]. split_and!; simpl; try done.
    + split_and!; simpl.
      * unfold meta_ref. simpl. by rewrite lookup_insert_eq.
      * apply lookup_insert_eq.
      * intros a Hne _. unfold meta_ref. simpl.
        by rewrite lookup_insert_ne.
      * intros r' Hne. by rewrite lookup_insert_ne.
      * by right.
    + apply lookup_insert_eq.
    + intros a Hne. by rewrite lookup_insert_ne.
    + intros a r' Ha. unfold meta_ref in Ha. simpl in *.
      destruct (decide (a = func)) as [-> | Hne].
      * rewrite lookup_insert_eq in Ha. simpl in Ha. simplify_eq.
        rewrite lookup_insert_eq. by eexists.
      * rewrite lookup_insert_ne in Ha by done.
        destruct (decide (r' = fresh (dom (metas s)))) as [-> | Hr'].
        -- rewrite lookup_insert_eq. by eexists.
        -- rewrite lookup_insert_ne by done. by apply (Hwf a).
Qed.

Lemma wraps_store func fo s :
  functions s !! func = Some fo →
  store_wf s →
  ∃ wrapper s',
    wraps func s = Some (wrapper, s')
    ∧ functions s !! wrapper = None
    ∧ functions s' !! wrapper
      = Some {| __name__ := __name__ fo; __module__ := __module__ fo;
                ward_meta := ward_meta fo; __wrapped__ := Some func |}
    ∧ (∀ a, a ≠ wrapper → functions s' !! a = functions s !! a)
    ∧ metas s' = metas s
    ∧ anonymous_tests s' = anonymous_tests s
    ∧ store_wf s'.
Proof.
  intros Hf Hwf. destruct (wraps_spec func fo s Hf) as (w & Hw & Hfresh).
  eexists w, _. split; [exact Hw|]. simpl. split_and!; try done.
  - apply lookup_insert_eq.
  - intros a Hne. by rewrite lookup_insert_ne.
  - intros a r Ha. unfold meta_ref in Ha. simpl in *.
    destruct (decide (a = w)) as [-> | Hne].
    + rewrite lookup_insert_eq in Ha. simpl in Ha.
      apply (Hwf func). unfold meta_ref. by rewrite Hf.
    + rewrite lookup_insert_ne in Ha by done. by apply (Hwf a).
Qed.

Lemma meta_written_wraps s s1 s' func r m wrapper :
  meta_written s s1 func r m →
  is_Some (functions s1 !! func) →
  (∀ a, a ≠ func → functions s1 !! a = functions s !! a) →
  functions s1 !! wrapper = None →
  (∀ a, a ≠ wrapper → functions s' !! a = functions s1 !! a) →
  metas s' = metas s1 →
  meta_written s s' func r m.
Proof.
  intros (Href & Hm & Hkeep & Hother & Hold) Hfunc Hfs Hfresh Hfs' Hms.
  assert (Hne : func ≠ wrapper).
  { intros ->. rewrite Hfresh in Hfunc. by destruct Hfunc. }
  split_and!; try done.
  - unfold meta_ref in *. by rewrite Hfs'.
  - by rewrite Hms.
  - intros a Ha Hin. rewrite <- (Hkeep a Ha Hin). unfold meta_ref.
    rewrite Hfs'; [done|]. intros ->.
    rewrite <- (Hfs wrapper) in Hin by done. rewrite Hfresh in Hin.
    by destruct Hin.
  - intros r' Hr'. rewrite Hms. by apply Hother.
Qed.

Lemma meta_written_shared s s' func r m a :
  meta_written s s' func r m →
  is_Some (functions s !! a) →
  meta_ref s a = Some r →
  meta_of s' a = Some m.
Proof.
  intros (Href & Hm & Hkeep & _ & _) Hin Ha. unfold meta_of.
  destruct (decide (a = func)) as [-> | Hne].
  - by rewrite Href.
  - by rewrite (Hkeep a Hne Hin), Ha.
Qed.

Lemma meta_written_self s s' func r m :
  meta_written s s' func r m → meta_of s' func = Some m.
Proof. intros (Href & Hm & _). unfold meta_of. by rewrite Href. Qed.

Lemma mark_function_store marker func fo s :
  functions s !! func = Some fo →
  store_wf s →
  ∃ wrapper s' r,
    mark_function marker func s = Some (Wrapped wrapper, s')
    ∧ wrapper_of s s' func wrapper fo
    ∧ meta_written s s' func r (marked (meta_of s func) marker)
    ∧ names_kept s s'
    ∧ anonymous_tests s' = anonymous_tests s
    ∧ store_wf s'.
Proof.
  intros Hf Hwf. unfold mark_function. rewrite Hf. simpl.
  rewrite attach_marker_meta.
  destruct (attach_meta_spec (λ m, set_marker m marker)
              (mkWardMeta (Some marker) None false) func fo s Hf Hwf)
    as (s1 & r & fo1 & Hs1 & Hw1 & Hf1 & Hn1 & Hm1 & Hfs1 & Ha1 & Hwf1).
  rewrite Hs1. simpl.
  destruct (wraps_store func fo1 s1 Hf1 Hwf1)
    as (w & s' & Hw & Hfresh & Hwo & Hfs' & Hms & Has & Hwf').
  rewrite Hw. simpl. exists w, s', r. split; [done|].
  assert (Hnew : functions s !! w = None).
  { destruct (decide (w = func)) as [-> | Hne]; [congruence|].
    by rewrite <- (Hfs1 w Hne). }
  assert (Hne : func ≠ w) by (intros ->; congruence).
  assert (Hwritten : meta_written s s' func r (marked (meta_of s func) marker)).
  { eapply meta_written_wraps; try done. }
  split_and!; try done.
  - split; [done|]. split.
    + unfold meta_ref. rewrite Hwo, (Hfs' func Hne), Hf1. done.
    + eexists. split; [exact Hwo|]. by simpl.
  - intros a foa Ha. destruct (decide (a = w)) as [-> | Haw]; [congruence|].
    rewrite (Hfs' a Haw). destruct (decide (a = func)) as [-> | Haf].
    + exists fo1. simplify_eq. done.
    + exists foa. by rewrite (Hfs1 a Haf).
  - congruence.
Qed.

Lemma test_store description func fo s :
  functions s !! func = Some fo →
  store_wf s →
  ∃ wrapper s',
    test description func s = Some (wrapper, s')
    ∧ wrapper_of s s' func wrapper fo
    ∧ names_kept s s'
    ∧ store_wf s'
    ∧ (__name__ fo = "_" →
       (∃ r, meta_written s s' func r
               (described (meta_of s func) description))
       ∧ anonymous_tests s'
         = <[__module__ fo :=
               default [] (anonymous_tests s !! __module__ fo) ++ [func]]>
             (anonymous_tests s))
    ∧ (__name__ fo ≠ "_" →
       metas s' = metas s
       ∧ anonymous_tests s' = anonymous_tests s
       ∧ ∀ a, is_Some (functions s !! a) →
              functions s' !! a = functions s !! a).
Proof.
  intros Hf Hwf. unfold test. rewrite Hf. simpl.
  destruct (bool_decide (__name__ fo = "_")) eqn:Hname.
  - apply bool_decide_eq_true in Hname. rewrite attach_description_meta.
    destruct (attach_meta_spec (λ m, set_description m description)
                (mkWardMeta None (Some description) false) func fo s Hf Hwf)
      as (s1 & r & fo1 & Hs1 & Hw1 & Hf1 & Hn1 & Hm1 & Hfs1 & Ha1 & Hwf1).
    rewrite Hs1. simpl.
    assert (Hwf2 : store_wf (register_anonymous (__module__ fo) func s1))
      by exact Hwf1.
    destruct (wraps_store func fo1
                (register_anonymous (__module__ fo) func s1) Hf1 Hwf2)
      as (w & s' & Hw & Hfresh & Hwo & Hfs' & Hms & Has & Hwf').
    rewrite Hw. exists w, s'. split; [done|]. simpl in *.
    assert (Hnew : functions s !! w = None).
    { destruct (decide (w = func)) as [-> | Hne]; [congruence|].
      by rewrite <- (Hfs1 w Hne). }
    assert (Hne : func ≠ w) by (intros ->; congruence).
    split_and!; try done.
    + split; [done|]. split.
      * unfold meta_ref. rewrite Hwo, (Hfs' func Hne). simpl.
        by rewrite Hf1.
      * eexists. split; [exact Hwo|]. simpl. by rewrite Hn1, Hm1.
    + intros a foa Ha. destruct (decide (a = w)) as [-> | Haw]; [congruence|].
      rewrite (Hfs' a Haw). simpl. destruct (decide (a = func)) as [-> | Haf].
      * exists fo1. simplify_eq. done.
      * exists foa. by rewrite (Hfs1 a Haf).
    + intros _. split.
      * exists r. eapply meta_written_wraps; try done.
      * by rewrite Has, Ha1.
  - apply bool_decide_eq_false in Hname. simpl.
    destruct (wraps_store func fo s Hf Hwf)
      as (w & s' & Hw & Hfresh & Hwo & Hfs' & Hms & Has & Hwf').
    rewrite Hw. exists w, s'. split; [done|].
    assert (Hne : func ≠ w) by (intros ->; congruence).
    split_and!; try done.
    + split; [done|]. split.
      * unfold meta_ref. rewrite Hwo, (Hfs' func Hne), Hf. done.
      * eexists. split; [exact Hwo|]. done.
    + intros a foa Ha. destruct (decide (a = w)) as [-> | Haw]; [congruence|].
      exists foa. by rewrite (Hfs' a Haw).
    + intros _. split_and!; try done. intros a [foa Ha].
      apply Hfs'. intros ->. congruence.
Qed.

Lemma skip_function reason func s :
  skip (FunctionArg func) reason s
  = mark_function (SkipMarker reason) func s.
Proof. done. Qed.

Lemma xfail_function reason func s :
  xfail (FunctionArg func) reason s
  = mark_function (XfailMarker reason) func s.
Proof. done. Qed.

Lemma marker_of_meta s func m :
  meta_of s func = Some m → marker_of s func = meta_marker m.
Proof. unfold marker_of. by intros ->. Qed.

Lemma description_of_marked old marker :
  meta_description (marked old marker) = old ≫= meta_description.
Proof. by destruct old. Qed.

Lemma marker_of_described old description :
  meta_marker (described old description) = old ≫= meta_marker.
Proof. by destruct old. Qed.

Lemma wrapper_meta s s' func wrapper fo :
  wrapper_of s s' func wrapper fo → meta_of s' wrapper = meta_of s' func.
Proof. intros (_ & Href & _). unfold meta_of. by rewrite Href. Qed.

(** The wrapper and the function it wraps share one metadata object: a
    decorator applied to the wrapper writes into the object the function
    refers to. *)
Lemma meta_written_through_wrapper s s1 s2 func wrapper fo r m r' m' :
  meta_written s s1 func r m →
  wrapper_of s s1 func wrapper fo →
  functions s !! func = Some fo →
  names_kept s s1 →
  meta_written s1 s2 wrapper r' m' →
  r' = r ∧ meta_of s2 func = Some m' ∧ meta_of s2 wrapper = Some m'.
Proof.
  intros Hw (Hnew & Href & wo & Hwo & _) Hf Hkept Hw2.
  destruct Hw as (Hrf & Hm & _).
  assert (Hrw : meta_ref s1 wrapper = Some r) by congruence.
  assert (r' = r) as ->.
  { destruct Hw2 as (_ & _ & _ & _ & [Hold | [Hold _]]); congruence. }
  split; [done|]. split; [|by eapply meta_written_self].
  destruct (Hkept func fo Hf) as (fo1 & Hf1 & _).
  eapply meta_written_shared; [exact Hw2 | by eexists | done].
Qed.

(** X12.  [skip] and [xfail] applied to a function return a new wrapper
    around it, with its name and module, and leave their marker with the
    given reason on the metadata that the function and the wrapper
    share; the description the function had is kept, and the registry of
    anonymous tests is not touched. *)
Theorem X12_skip_and_xfail_mark
    (reason : option string) (func : nat) (fo : FunctionObject) (s : Store) :
  functions s !! func = Some fo →
  store_wf s →
  (∃ wrapper s',
     skip (FunctionArg func) reason s = Some (Wrapped wrapper, s')
     ∧ wrapper_of s s' func wrapper fo
     ∧ marker_of s' func = Some (SkipMarker reason)
     ∧ marker_of s' wrapper = Some (SkipMarker reason)
     ∧ description_of s' func = description_of s func
     ∧ description_of s' wrapper = description_of s func
     ∧ anonymous_tests s' = anonymous_tests s)
  ∧ (∃ wrapper s',
       xfail (FunctionArg func) reason s = Some (Wrapped wrapper, s')
       ∧ wrapper_of s s' func wrapper fo
       ∧ marker_of s' func = Some (XfailMarker reason)
       ∧ marker_of s' wrapper = Some (XfailMarker reason)
       ∧ description_of s' func = description_of s func
       ∧ description_of s' wrapper = description_of s func
       ∧ anonymous_tests s' = anonymous_tests s).
Proof.
  intros Hf Hwf.
  assert (∀ marker, ∃ wrapper s',
     mark_function marker func s = Some (Wrapped wrapper, s')
     ∧ wrapper_of s s' func wrapper fo
     ∧ marker_of s' func = Some marker
     ∧ marker_of s' wrapper = Some marker
     ∧ description_of s' func = description_of s func
     ∧ description_of s' wrapper = description_of s func
     ∧ anonymous_tests s' = anonymous_tests s) as Hmark.
  { intros marker.
    destruct (mark_function_store marker func fo s Hf Hwf)
      as (w & s' & r & Hs' & Hwrap & Hwritten & _ & Hanon & _).
    exists w, s'.
    pose proof (meta_written_self _ _ _ _ _ Hwritten) as Hm.
    pose proof (wrapper_meta _ _ _ _ _ Hwrap) as Hmw.
    rewrite Hm in Hmw.
    rewrite !description_of_meta, Hm, Hmw.
    rewrite (marker_of_meta _ _ _ Hm), (marker_of_meta _ _ _ Hmw).
    simpl. rewrite description_of_marked.
    split_and!; try done; by destruct (meta_of s func). }
  split; [apply (Hmark (SkipMarker reason)) | apply (Hmark (XfailMarker reason))].
Qed.

(** X13.  A function carries one marker, the last one applied: [xfail]
    on what [skip] returned replaces the skip marker, and it does so for
    the original function and for both wrappers, which all share one
    metadata object; the description is kept. *)
Theorem X13_later_marker_replaces_earlier
    (reason1 reason2 : option string) (func : nat) (fo : FunctionObject)
    (s s1 s2 : Store) (wrapper1 wrapper2 : nat) :
  functions s !! func = Some fo →
  store_wf s →
  skip (FunctionArg func) reason1 s = Some (Wrapped wrapper1, s1) →
  xfail (FunctionArg wrapper1) reason2 s1 = Some (Wrapped wrapper2, s2) →
  marker_of s2 func = Some (XfailMarker reason2)
  ∧ marker_of s2 wrapper1 = Some (XfailMarker reason2)
  ∧ marker_of s2 wrapper2 = Some (XfailMarker reason2)
  ∧ description_of s2 func = description_of s func.
Proof.
  intros Hf Hwf Hskip Hxfail.
  destruct (mark_function_store (SkipMarker reason1) func fo s Hf Hwf)
    as (w & s' & r & Hs' & Hwrap & Hwritten & Hkept & _ & Hwf1).
  rewrite skip_function, Hs' in Hskip. simplify_eq.
  pose proof Hwrap as (Hnew & Href & wo & Hwo & Hwr & Hn & Hmod).
  destruct (mark_function_store (XfailMarker reason2) wrapper1 wo s1 Hwo Hwf1)
    as (w2 & s2' & r2 & Hs2 & Hwrap2 & Hwritten2 & _ & _ & _).
  rewrite xfail_function, Hs2 in Hxfail. simplify_eq.
  destruct (meta_written_through_wrapper _ _ _ _ _ _ _ _ _ _
              Hwritten Hwrap Hf Hkept Hwritten2) as (-> & Hmf & Hmw).
  pose proof (wrapper_meta _ _ _ _ _ Hwrap2) as Hmw2. rewrite Hmw in Hmw2.
  rewrite (marker_of_meta _ _ _ Hmf), (marker_of_meta _ _ _ Hmw),
    (marker_of_meta _ _ _ Hmw2).
  rewrite !description_of_meta, Hmf. simpl.
  rewrite description_of_marked.
  assert (Hm1 : meta_of s1 wrapper1 = Some (marked (meta_of s func)
                                              (SkipMarker reason1))).
  { unfold meta_of. rewrite Href. by apply meta_written_self in Hwritten. }
  rewrite Hm1. simpl. split_and!; try done. by destruct (meta_of s func).
Qed.

Lemma described_description old description :
  meta_description (described old description) = Some description.
Proof. by destruct old. Qed.

(** X14.  For a function named [_], [test] and [skip] can be stacked in
    either order.  With [skip] applied first, [test] registers the
    wrapper that [skip] returned; with [test] applied first, the function
    itself is registered.  Either way the registered object, and the
    function, end up with both the description and the skip marker. *)
Theorem X14_marker_and_description_in_either_order
    (description : string) (reason : option string) (func : nat)
    (fo : FunctionObject) (s : Store) :
  functions s !! func = Some fo →
  store_wf s →
  __name__ fo = "_" →
  (∀ wrapper1 s1 wrapper2 s2,
     skip (FunctionArg func) reason s = Some (Wrapped wrapper1, s1) →
     test description wrapper1 s1 = Some (wrapper2, s2) →
     anonymous_tests s2 !! __module__ fo
     = Some (default [] (anonymous_tests s !! __module__ fo) ++ [wrapper1])
     ∧ description_of s2 wrapper1 = Some description
     ∧ marker_of s2 wrapper1 = Some (SkipMarker reason)
     ∧ description_of s2 func = Some description
     ∧ marker_of s2 func = Some (SkipMarker reason))
  ∧ (∀ wrapper1 s1 wrapper2 s2,
       test description func s = Some (wrapper1, s1) →
       skip (FunctionArg wrapper1) reason s1 = Some (Wrapped wrapper2, s2) →
       anonymous_tests s2 !! __module__ fo
       = Some (default [] (anonymous_tests s !! __module__ fo) ++ [func])
       ∧ description_of s2 func = Some description
       ∧ marker_of s2 func = Some (SkipMarker reason)
       ∧ description_of s2 wrapper2 = Some description
       ∧ marker_of s2 wrapper2 = Some (SkipMarker reason)).
Proof.
  intros Hf Hwf Hname. split.
  - intros w1 s1 w2 s2 Hskip Htest.
    destruct (mark_function_store (SkipMarker reason) func fo s Hf Hwf)
      as (w & s' & r & Hs' & Hwrap & Hwritten & Hkept & Hanon & Hwf1).
    rewrite skip_function, Hs' in Hskip. simplify_eq.
    pose proof Hwrap as (Hnew & Href & wo & Hwo & Hwr & Hn & Hmod).
    destruct (test_store description w1 wo s1 Hwo Hwf1)
      as (w' & s2' & Hs2 & Hwrap2 & _ & _ & Hanon2 & _).
    rewrite Hs2 in Htest. simplify_eq.
    destruct Hanon2 as [[r2 Hwritten2] Hreg]; [congruence|].
    destruct (meta_written_through_wrapper _ _ _ _ _ _ _ _ _ _
                Hwritten Hwrap Hf Hkept Hwritten2) as (-> & Hmf & Hmw).
    assert (Hm1 : meta_of s1 w1 = Some (marked (meta_of s func)
                                          (SkipMarker reason))).
    { unfold meta_of. rewrite Href. by apply meta_written_self in Hwritten. }
    rewrite Hm1 in Hmf, Hmw.
    rewrite !description_of_meta, Hmf, Hmw.
    rewrite (marker_of_meta _ _ _ Hmf), (marker_of_meta _ _ _ Hmw).
    rewrite Hreg, Hmod, Hanon, lookup_insert_eq. simpl.
    split_and!; try done; by destruct (meta_of s func).
  - intros w1 s1 w2 s2 Htest Hskip.
    destruct (test_store description func fo s Hf Hwf)
      as (w & s' & Hs' & Hwrap & Hkept & Hwf1 & Hanon & _).
    rewrite Hs' in Htest. simplify_eq.
    destruct (Hanon Hname) as [[r Hwritten] Hreg].
    pose proof Hwrap as (Hnew & Href & wo & Hwo & Hwr & Hn & Hmod).
    destruct (mark_function_store (SkipMarker reason) w1 wo s1 Hwo Hwf1)
      as (w' & s2' & r2 & Hs2 & Hwrap2 & Hwritten2 & _ & Hanon2 & _).
    rewrite skip_function, Hs2 in Hskip. simplify_eq.
    destruct (meta_written_through_wrapper _ _ _ _ _ _ _ _ _ _
                Hwritten Hwrap Hf Hkept Hwritten2) as (-> & Hmf & Hmw).
    pose proof (wrapper_meta _ _ _ _ _ Hwrap2) as Hmw2. rewrite Hmw in Hmw2.
    assert (Hm1 : meta_of s1 w1 = Some (described (meta_of s func)
                                          description)).
    { unfold meta_of. rewrite Href. by apply meta_written_self in Hwritten. }
    rewrite Hm1 in Hmf, Hmw2.
    rewrite !description_of_meta, Hmf, Hmw2.
    rewrite (marker_of_meta _ _ _ Hmf), (marker_of_meta _ _ _ Hmw2).
    rewrite Hanon2, Hreg, lookup_insert_eq. simpl.
    rewrite described_description. done.
Qed.

(** X15.  On a store without dangling metadata references, [test],
    [skip] and [xfail] applied to an existing function always go through,
    leave the store without dangling references, and keep every function
    that was there, under its name and module. *)
Theorem X15_decorators_keep_the_store
    (description : string) (reason : option string) (func : nat)
    (fo : FunctionObject) (s : Store) :
  functions s !! func = Some fo →
  store_wf s →
  (∃ wrapper s', test description func s = Some (wrapper, s')
                 ∧ store_wf s' ∧ names_kept s s')
  ∧ (∃ wrapper s', skip (FunctionArg func) reason s = Some (Wrapped wrapper, s')
                   ∧ store_wf s' ∧ names_kept s s')
  ∧ (∃ wrapper s', xfail (FunctionArg func) reason s = Some (Wrapped wrapper, s')
                   ∧ store_wf s' ∧ names_kept s s').
Proof.
  intros Hf Hwf. split_and!.
  - destruct (test_store description func fo s Hf Hwf)
      as (w & s' & Hs' & _ & Hkept & Hwf' & _).
    by exists w, s'.
  - destruct (mark_function_store (SkipMarker reason) func fo s Hf Hwf)
      as (w & s' & r & Hs' & _ & _ & Hkept & _ & Hwf').
    by exists w, s'.
  - destruct (mark_function_store (XfailMarker reason) func fo s Hf Hwf)
      as (w & s' & r & Hs' & _ & _ & Hkept & _ & Hwf').
    by exists w, s'.
Qed.

(** X16.  Two functions named [_] of one module that go through [test]
    one after the other are appended to the list of that module in that
    order, after what the list held; the lists of other modules are
    untouched. *)
Theorem X16_anonymous_tests_in_declaration_order
    (description1 description2 : string) (func1 func2 : nat)
    (fo1 fo2 : FunctionObject) (s s1 s2 : Store) (wrapper1 wrapper2 : nat) :
  functions s !! func1 = Some fo1 →
  functions s !! func2 = Some fo2 →
  store_wf s →
  __name__ fo1 = "_" →
  __name__ fo2 = "_" →
  __module__ fo2 = __module__ fo1 →
  test description1 func1 s = Some (wrapper1, s1) →
  test description2 func2 s1 = Some (wrapper2, s2) →
  anonymous_tests s2 !! __module__ fo1
  = Some (default [] (anonymous_tests s !! __module__ fo1) ++ [func1; func2])
  ∧ ∀ m, m ≠ __module__ fo1 →
         anonymous_tests s2 !! m = anonymous_tests s !! m.
Proof.
  intros Hf1 Hf2 Hwf Hn1 Hn2 Hmod Ht1 Ht2.
  destruct (test_store description1 func1 fo1 s Hf1 Hwf)
    as (w & s' & Hs' & _ & Hkept & Hwf1 & Hanon & _).
  rewrite Hs' in Ht1. simplify_eq.
  destruct (Hanon Hn1) as [_ Hreg1].
  destruct (Hkept func2 fo2 Hf2) as (fo2' & Hf2' & Hn2' & Hm2').
  destruct (test_store description2 func2 fo2' s1 Hf2' Hwf1)
    as (w' & s2' & Hs2 & _ & _ & _ & Hanon2 & _).
  rewrite Hs2 in Ht2. simplify_eq.
  destruct Hanon2 as [_ Hreg2]; [congruence|].
  rewrite Hreg2, Hm2', Hmod, Hreg1. split.
  - rewrite !lookup_insert_eq. simpl. by rewrite <- app_assoc.
  - intros m Hm. by rewrite !lookup_insert_ne.
Qed.

Lemma sample_store_wf : store_wf sample_store.
Proof.
  intros func r Href. unfold meta_ref in Href.
  destruct (functions sample_store !! func) as [fo|] eqn:E; [|done].
  simpl in Href. unfold sample_store in E. simpl in E.
  apply lookup_insert_Some in E as [[_ <-] | [_ E]]; [done|].
  by apply lookup_singleton_Some in E as [_ <-].
Qed.

(** X12 at the anonymous function of [sample_store]. *)
Lemma X12_skip_and_xfail_mark_witness :
  (∃ wrapper s',
     skip (FunctionArg 0) (Some "slow") sample_store
     = Some (Wrapped wrapper, s')
     ∧ wrapper_of sample_store s' 0 wrapper
         (mkFunctionObject "_" "test_mod" None None)
     ∧ marker_of s' 0 = Some (SkipMarker (Some "slow"))
     ∧ marker_of s' wrapper = Some (SkipMarker (Some "slow"))
     ∧ description_of s' 0 = description_of sample_store 0
     ∧ description_of s' wrapper = description_of sample_store 0
     ∧ anonymous_tests s' = anonymous_tests sample_store)
  ∧ (∃ wrapper s',
       xfail (FunctionArg 0) (Some "slow") sample_store
       = Some (Wrapped wrapper, s')
       ∧ wrapper_of sample_store s' 0 wrapper
           (mkFunctionObject "_" "test_mod" None None)
       ∧ marker_of s' 0 = Some (XfailMarker (Some "slow"))
       ∧ marker_of s' wrapper = Some (XfailMarker (Some "slow"))
       ∧ description_of s' 0 = description_of sample_store 0
       ∧ description_of s' wrapper = description_of sample_store 0
       ∧ anonymous_tests s' = anonymous_tests sample_store).
Proof.
  apply (X12_skip_and_xfail_mark (Some "slow") 0
           (mkFunctionObject "_" "test_mod" None None) sample_store).
  - reflexivity.
  - apply sample_store_wf.
Defined.

(** X13 at the anonymous function of [sample_store]. *)
Lemma X13_later_marker_replaces_earlier_witness :
  marker_of store_skipped_xfailed 0 = Some (XfailMarker (Some "flaky"))
  ∧ marker_of store_skipped_xfailed 2 = Some (XfailMarker (Some "flaky"))
  ∧ marker_of store_skipped_xfailed 3 = Some (XfailMarker (Some "flaky"))
  ∧ description_of store_skipped_xfailed 0 = description_of sample_store 0.
Proof.
  apply (X13_later_marker_replaces_earlier (Some "slow") (Some "flaky") 0
           (mkFunctionObject "_" "test_mod" None None)
           sample_store store_skipped store_skipped_xfailed 2 3).
  - reflexivity.
  - apply sample_store_wf.
  - reflexivity.
  - reflexivity.
Defined.

(** X14 at the anonymous function of [sample_store]. *)
Lemma X14_marker_and_description_in_either_order_witness :
  (anonymous_tests store_skipped_tested !! "test_mod"
   = Some (default [] (anonymous_tests sample_store !! "test_mod") ++ [2])
   ∧ description_of store_skipped_tested 2 = Some "adds numbers"
   ∧ marker_of store_skipped_tested 2 = Some (SkipMarker (Some "slow"))
   ∧ description_of store_skipped_tested 0 = Some "adds numbers"
   ∧ marker_of store_skipped_tested 0 = Some (SkipMarker (Some "slow")))
  ∧ (anonymous_tests store_tested_skipped !! "test_mod"
     = Some (default [] (anonymous_tests sample_store !! "test_mod") ++ [0])
     ∧ description_of store_tested_skipped 0 = Some "adds numbers"
     ∧ marker_of store_tested_skipped 0 = Some (SkipMarker (Some "slow"))
     ∧ description_of store_tested_skipped 3 = Some "adds numbers"
     ∧ marker_of store_tested_skipped 3 = Some (SkipMarker (Some "slow"))).
Proof.
  destruct (X14_marker_and_description_in_either_order "adds numbers"
              (Some "slow") 0 (mkFunctionObject "_" "test_mod" None None)
              sample_store eq_refl sample_store_wf eq_refl) as [H1 H2].
  split.
  - apply (H1 2 store_skipped 3 store_skipped_tested); reflexivity.
  - apply (H2 2 store_tested 3 store_tested_skipped); reflexivity.
Defined.

(** X15 at the named function of [sample_store]. *)
Lemma X15_decorators_keep_the_store_witness :
  (∃ wrapper s', test "adds numbers" 1 sample_store = Some (wrapper, s')
                 ∧ store_wf s' ∧ names_kept sample_store s')
  ∧ (∃ wrapper s',
       skip (FunctionArg 1) None sample_store = Some (Wrapped wrapper, s')
       ∧ store_wf s' ∧ names_kept sample_store s')
  ∧ (∃ wrapper s',
       xfail (FunctionArg 1) None sample_store = Some (Wrapped wrapper, s')
       ∧ store_wf s' ∧ names_kept sample_store s').
Proof.
  apply (X15_decorators_keep_the_store "adds numbers" None 1
           (mkFunctionObject "test_named" "test_mod" None None) sample_store).
  - reflexivity.
  - apply sample_store_wf.
Defined.

Lemma two_anonymous_wf : store_wf two_anonymous.
Proof.
  intros func r Href. unfold meta_ref in Href.
  destruct (functions two_anonymous !! func) as [fo|] eqn:E; [|done].
  simpl in Href. unfold two_anonymous in E. simpl in E.
  apply lookup_insert_Some in E as [[_ <-] | [_ E]]; [done|].
  by apply lookup_singleton_Some in E as [_ <-].
Qed.

(** X16 at a module with two anonymous functions. *)
Lemma X16_anonymous_tests_in_declaration_order_witness :
  anonymous_tests two_anonymous_tested !! "test_mod"
  = Some (default [] (anonymous_tests two_anonymous !! "test_mod") ++ [0; 1])
  ∧ ∀ m, m ≠ "test_mod" →
         anonymous_tests two_anonymous_tested !! m
         = anonymous_tests two_anonymous !! m.
Proof.
  apply (X16_anonymous_tests_in_declaration_order "first" "second" 0 1
           (mkFunctionObject "_" "test_mod" None None)
           (mkFunctionObject "_" "test_mod" None None)
           two_anonymous
           (default two_anonymous (snd <$> test "first" 0 two_anonymous))
           two_anonymous_tested 2 3);
    try reflexivity.
  apply two_anonymous_wf.
Defined.
